(** * Pension fund projection (create_graph.py): model and properties

    The script reads [graph_values.ini], builds an [AMR_Graph] object whose
    attributes are the parsed configuration values, computes the year-by-year
    table with Python's [decimal] arithmetic, writes it rounded to two places
    and hands a zero-clamped copy to the chart.

    Python objects are modelled by the type [value]; an operation that raises
    returns [Raise e].  [decimal.Decimal] is a coefficient and an exponent
    under the default context (28 significant digits, ROUND_HALF_EVEN), and a
    Python float is a binary64 number given by an integer mantissa and a
    binary exponent.  The calls to the logger are left out: they format
    values that are already computed and change nothing else. *)

From Stdlib Require Import ZArith List String Ascii Bool Lia.
Import ListNotations.
Open Scope Z_scope.

(** ** Exceptions and results *)

Inductive exn : Type :=
| FileNotFoundError (msg : string)
| ValueError (msg : string)
| TypeError
| AttributeError (attr : string)
| KeyError (key : string)
| IndexError
| OverflowError
| InvalidOperation          (* decimal.InvalidOperation, an ArithmeticError *)
| DecimalOverflow.          (* decimal.Overflow, an ArithmeticError *)

Inductive result (A : Type) : Type :=
| Ok (a : A)
| Raise (e : exn).
Arguments Ok {A} a.
Arguments Raise {A} e.

Definition bind {A B : Type} (m : result A) (k : A -> result B) : result B :=
  match m with
  | Ok a => k a
  | Raise e => Raise e
  end.

Notation "x <- m ;; k" := (bind m (fun x => k))
  (at level 61, m at next level, right associativity).

(** ** decimal.Decimal *)

Module Dec.

(** A finite decimal [coef * 10 ^ dexp].  The coefficient carries the sign,
    so the sign of a zero is not tracked (Python compares [-0] and [0]
    equal).  Infinities and NaNs are not values of this type. *)
Record Decimal : Type := mkDec { coef : Z; dexp : Z }.

(** The default context of the decimal module. *)
Definition prec : Z := 28.
Definition Emax : Z := 999999.
Definition Emin : Z := -999999.
Definition Etiny : Z := Emin - prec + 1.
Definition Etop : Z := Emax - prec + 1.

Fixpoint ndigits_aux (fuel : nat) (n : Z) : Z :=
  match fuel with
  | O => 1
  | S f => if n <? 10 then 1 else 1 + ndigits_aux f (n / 10)
  end.

(** [len(self._int)]: the number of decimal digits of the coefficient
    (one for zero). *)
Definition ndigits (c : Z) : Z :=
  ndigits_aux (Z.to_nat (Z.log2 (Z.abs c))) (Z.abs c).

(** [adjusted()]: the exponent of the leading digit. *)
Definition adjusted (d : Decimal) : Z := ndigits (coef d) + dexp d - 1.

Inductive rounding : Type := ROUND_HALF_UP | ROUND_HALF_EVEN.

(** Drop the last [k] digits of [c] ([0 <= k]), rounding the magnitude to
    nearest; a tie goes away from zero (half-up) or to the even neighbour
    (half-even). *)
Definition round_digits (r : rounding) (c k : Z) : Z :=
  let p := 10 ^ k in
  let q := Z.abs c / p in
  let rem := Z.abs c mod p in
  let up :=
    match r with
    | ROUND_HALF_UP => p <=? 2 * rem
    | ROUND_HALF_EVEN => (p <? 2 * rem) || ((p =? 2 * rem) && Z.odd q)
    end in
  Z.sgn c * (if up then q + 1 else q).

(** [_rescale(exp, rounding)]: the same number at exponent [e], padded with
    zeros or rounded. *)
Definition rescale (r : rounding) (d : Decimal) (e : Z) : Decimal :=
  if e <=? dexp d
  then mkDec (coef d * 10 ^ (dexp d - e)) e
  else mkDec (round_digits r (coef d) (e - dexp d)) e.

(** [_fix(context)]: round the exact result of an operation to the context
    precision.  Overflow is a trapped signal of the default context. *)
Definition ctx_fix (d : Decimal) : result Decimal :=
  if coef d =? 0 then
    Ok (mkDec 0 (Z.min (Z.max (dexp d) Etiny) Emax))
  else
    let exp_min := ndigits (coef d) + dexp d - prec in
    if Etop <? exp_min then Raise DecimalOverflow
    else
      let exp_min := Z.max exp_min Etiny in
      if dexp d <? exp_min then
        let c := round_digits ROUND_HALF_EVEN (coef d) (exp_min - dexp d) in
        if 10 ^ prec <=? Z.abs c then
          if Etop <? exp_min + 1 then Raise DecimalOverflow
          else Ok (mkDec (c / 10) (exp_min + 1))
        else Ok (mkDec c exp_min)
      else Ok d.

Definition of_int (n : Z) : Decimal := mkDec n 0.

(** The exact sum at the smaller exponent, then [_fix]. *)
Definition add (a b : Decimal) : result Decimal :=
  let e := Z.min (dexp a) (dexp b) in
  ctx_fix (mkDec (coef a * 10 ^ (dexp a - e) + coef b * 10 ^ (dexp b - e)) e).

Definition neg (a : Decimal) : Decimal := mkDec (- coef a) (dexp a).

Definition sub (a b : Decimal) : result Decimal := add a (neg b).

Definition mul (a b : Decimal) : result Decimal :=
  ctx_fix (mkDec (coef a * coef b) (dexp a + dexp b)).

(** [self / 100].  The quotient of a decimal by 100 is exact; its exponent
    is the one closest to the dividend's that represents it. *)
Definition div100 (a : Decimal) : result Decimal :=
  if coef a mod 100 =? 0 then ctx_fix (mkDec (coef a / 100) (dexp a))
  else if coef a mod 10 =? 0 then ctx_fix (mkDec (coef a / 10) (dexp a - 1))
  else ctx_fix (mkDec (coef a) (dexp a - 2)).

(** [self.quantize(Decimal('1.' + '0' * places), rounding=ROUND_HALF_UP)]:
    InvalidOperation when the result needs more than [prec] digits. *)
Definition quantize (d : Decimal) (places : Z) : result Decimal :=
  let r := rescale ROUND_HALF_UP d (- places) in
  if 10 ^ prec <=? Z.abs (coef r) then Raise InvalidOperation else Ok r.

(** [self < 0] *)
Definition ltb0 (d : Decimal) : bool := coef d <? 0.

(** [a == b] of Python: equality of the numbers denoted. *)
Definition eqb (a b : Decimal) : bool :=
  let e := Z.min (dexp a) (dexp b) in
  coef a * 10 ^ (dexp a - e) =? coef b * 10 ^ (dexp b - e).

End Dec.

Import Dec.

(** ** Python floats (binary64) *)

Module Flt.

(** A finite float is [m * 2 ^ e] with [|m| < 2 ^ 53] and
    [-1074 <= e <= 971]; the sign of a zero is not tracked. *)
Inductive float : Type :=
| Ffin (m e : Z)
| Finf (negative : bool)
| Fnan.

(** The integer nearest to [n / d] ([0 <= n], [0 < d]), ties to even. *)
Definition rne_div (n d : Z) : Z :=
  let q := n / d in
  let r := n mod d in
  if (d <? 2 * r) || ((d =? 2 * r) && Z.odd q) then q + 1 else q.

(** The integer nearest to [a / (d * 2 ^ e)]. *)
Definition rne_scaled (a d e : Z) : Z :=
  if 0 <=? e then rne_div a (d * 2 ^ e) else rne_div (a * 2 ^ (- e)) d.

(** [a / d < 2 ^ s] *)
Definition scaled_ltb (a d s : Z) : bool :=
  if 0 <=? s then a <? d * 2 ^ s else a * 2 ^ (- s) <? d.

(** The binary64 number nearest to the rational [n / d] ([0 < d]), ties to
    even, subnormals included; an infinity when the result is out of
    range. *)
Definition round_binary64 (n d : Z) : float :=
  if n =? 0 then Ffin 0 0
  else
    let a := Z.abs n in
    let l := Z.log2 a - Z.log2 d in
    let e1 := Z.max (l - 52) (-1074) in
    let e := if scaled_ltb a d (e1 + 52) && (-1074 <? e1) then e1 - 1 else e1 in
    let m := rne_scaled a d e in
    let '(m, e) := if m =? 2 ^ 53 then (2 ^ 52, e + 1) else (m, e) in
    if 971 <? e then Finf (n <? 0) else Ffin (Z.sgn n * m) e.

(** The exact value of a finite float as a fraction. *)
Definition num (m e : Z) : Z := if 0 <=? e then m * 2 ^ e else m.
Definition den (e : Z) : Z := if 0 <=? e then 1 else 2 ^ (- e).

Definition is_zero (f : float) : bool :=
  match f with Ffin m _ => m =? 0 | _ => false end.

Definition negative (f : float) : bool :=
  match f with Ffin m _ => m <? 0 | Finf s => s | Fnan => false end.

Definition mul (a b : float) : float :=
  match a, b with
  | Fnan, _ | _, Fnan => Fnan
  | Ffin m1 e1, Ffin m2 e2 =>
      round_binary64 (num m1 e1 * num m2 e2) (den e1 * den e2)
  | _, _ =>
      if is_zero a || is_zero b then Fnan
      else Finf (xorb (negative a) (negative b))
  end.

Definition add (a b : float) : float :=
  match a, b with
  | Fnan, _ | _, Fnan => Fnan
  | Ffin m1 e1, Ffin m2 e2 =>
      round_binary64 (num m1 e1 * den e2 + num m2 e2 * den e1)
                     (den e1 * den e2)
  | Finf s1, Finf s2 => if Bool.eqb s1 s2 then Finf s1 else Fnan
  | Finf s, _ | _, Finf s => Finf s
  end.

Definition neg (a : float) : float :=
  match a with
  | Ffin m e => Ffin (- m) e
  | Finf s => Finf (negb s)
  | Fnan => Fnan
  end.

Definition sub (a b : float) : float := add a (neg b).

(** [float(n)] for a Python int: OverflowError when out of range. *)
Definition of_int (n : Z) : result float :=
  match round_binary64 n 1 with
  | Finf _ => Raise OverflowError
  | f => Ok f
  end.

(** [n / d] for Python ints ([d] positive): the correctly rounded quotient,
    OverflowError when out of range. *)
Definition int_truediv (n d : Z) : result float :=
  match round_binary64 n d with
  | Finf _ => Raise OverflowError
  | f => Ok f
  end.

Fixpoint lowest_terms (fuel : nat) (m e : Z) : Z * Z :=
  match fuel with
  | O => (m, e)
  | S k => if (e <? 0) && Z.even m && negb (m =? 0)
           then lowest_terms k (m / 2) (e + 1) else (m, e)
  end.

(** [Decimal(f)] for a finite float: the exact value, from the fraction in
    lowest terms [n / 2 ^ k] as [n * 5 ^ k] at exponent [- k]. *)
Definition to_decimal (m e : Z) : Decimal :=
  if m =? 0 then mkDec 0 0
  else
    let '(m, e) := lowest_terms (Z.to_nat (- e)) m e in
    if 0 <=? e then mkDec (m * 2 ^ e) 0 else mkDec (m * 5 ^ (- e)) e.

End Flt.

(** ** Python values and operators *)

Inductive value : Type :=
| VInt (n : Z)
| VFloat (f : Flt.float)
| VDec (d : Decimal)
| VStr (s : string).

Fixpoint str_repeat (s : string) (n : nat) : string :=
  match n with
  | O => EmptyString
  | S k => (s ++ str_repeat s k)%string
  end.

(** [a * b] *)
Definition py_mul (a b : value) : result value :=
  match a, b with
  | VInt x, VInt y => Ok (VInt (x * y))
  | VInt x, VFloat f => fx <- Flt.of_int x ;; Ok (VFloat (Flt.mul fx f))
  | VFloat f, VInt y => fy <- Flt.of_int y ;; Ok (VFloat (Flt.mul f fy))
  | VFloat f, VFloat g => Ok (VFloat (Flt.mul f g))
  | VInt x, VDec d => r <- Dec.mul (of_int x) d ;; Ok (VDec r)
  | VDec d, VInt y => r <- Dec.mul d (of_int y) ;; Ok (VDec r)
  | VDec d, VDec d' => r <- Dec.mul d d' ;; Ok (VDec r)
  | VStr s, VInt n | VInt n, VStr s => Ok (VStr (str_repeat s (Z.to_nat n)))
  | _, _ => Raise TypeError
  end.

(** [a + b] *)
Definition py_add (a b : value) : result value :=
  match a, b with
  | VInt x, VInt y => Ok (VInt (x + y))
  | VInt x, VFloat f => fx <- Flt.of_int x ;; Ok (VFloat (Flt.add fx f))
  | VFloat f, VInt y => fy <- Flt.of_int y ;; Ok (VFloat (Flt.add f fy))
  | VFloat f, VFloat g => Ok (VFloat (Flt.add f g))
  | VInt x, VDec d => r <- Dec.add (of_int x) d ;; Ok (VDec r)
  | VDec d, VInt y => r <- Dec.add d (of_int y) ;; Ok (VDec r)
  | VDec d, VDec d' => r <- Dec.add d d' ;; Ok (VDec r)
  | VStr s, VStr t => Ok (VStr (s ++ t))
  | _, _ => Raise TypeError
  end.

(** [a - b] *)
Definition py_sub (a b : value) : result value :=
  match a, b with
  | VInt x, VInt y => Ok (VInt (x - y))
  | VInt x, VFloat f => fx <- Flt.of_int x ;; Ok (VFloat (Flt.sub fx f))
  | VFloat f, VInt y => fy <- Flt.of_int y ;; Ok (VFloat (Flt.sub f fy))
  | VFloat f, VFloat g => Ok (VFloat (Flt.sub f g))
  | VInt x, VDec d => r <- Dec.sub (of_int x) d ;; Ok (VDec r)
  | VDec d, VInt y => r <- Dec.sub d (of_int y) ;; Ok (VDec r)
  | VDec d, VDec d' => r <- Dec.sub d d' ;; Ok (VDec r)
  | _, _ => Raise TypeError
  end.

(** [a / 100] *)
Definition py_div100 (a : value) : result value :=
  match a with
  | VInt x => f <- Flt.int_truediv x 100 ;; Ok (VFloat f)
  | VFloat (Flt.Ffin m e) =>
      Ok (VFloat (Flt.round_binary64 (Flt.num m e) (Flt.den e * 100)))
  | VFloat f => Ok (VFloat f)
  | VDec d => r <- Dec.div100 d ;; Ok (VDec r)
  | VStr _ => Raise TypeError
  end.

(** [a < 0] *)
Definition py_lt0 (a : value) : result bool :=
  match a with
  | VInt x => Ok (x <? 0)
  | VFloat (Flt.Ffin m _) => Ok (m <? 0)
  | VFloat (Flt.Finf s) => Ok s
  | VFloat Flt.Fnan => Ok false
  | VDec d => Ok (ltb0 d)
  | VStr _ => Raise TypeError
  end.

(** ** Strings: [replace], [in], [int()] and [Decimal()] *)

Definition is_digit (c : ascii) : bool :=
  let n := Z.of_nat (nat_of_ascii c) in (48 <=? n) && (n <=? 57).

Definition digit_val (c : ascii) : Z := Z.of_nat (nat_of_ascii c) - 48.

(** The ASCII characters that [str.strip()] removes. *)
Definition is_space (c : ascii) : bool :=
  let n := Z.of_nat (nat_of_ascii c) in
  ((9 <=? n) && (n <=? 13)) || ((28 <=? n) && (n <=? 32)).

(** [s.replace(c, "")] for a one-character [c] *)
Fixpoint remove_char (c : ascii) (s : string) : string :=
  match s with
  | EmptyString => EmptyString
  | String a s' =>
      if Ascii.eqb a c then remove_char c s' else String a (remove_char c s')
  end.

(** [c in s] for a one-character [c] *)
Fixpoint contains_char (c : ascii) (s : string) : bool :=
  match s with
  | EmptyString => false
  | String a s' => Ascii.eqb a c || contains_char c s'
  end.

Fixpoint lstrip (s : string) : string :=
  match s with
  | String a s' => if is_space a then lstrip s' else s
  | EmptyString => EmptyString
  end.

Fixpoint str_rev_onto (s acc : string) : string :=
  match s with
  | EmptyString => acc
  | String a s' => str_rev_onto s' (String a acc)
  end.

Definition str_rev (s : string) : string := str_rev_onto s EmptyString.

Definition strip (s : string) : string :=
  str_rev (lstrip (str_rev (lstrip s))).

(** An optional sign: whether it is a minus, and the rest. *)
Definition split_sign (s : string) : bool * string :=
  match s with
  | String "-" s' => (true, s')
  | String "+" s' => (false, s')
  | _ => (false, s)
  end.

(** Digits of an int literal: single underscores are allowed between
    digits.  [prev] tells that the previous character was a digit. *)
Fixpoint int_digits (s : string) (acc : Z) (prev : bool) : option Z :=
  match s with
  | EmptyString => if prev then Some acc else None
  | String c s' =>
      if is_digit c then int_digits s' (10 * acc + digit_val c) true
      else if Ascii.eqb c "_" && prev then int_digits s' acc false
      else None
  end.

(** [int(s)]: [None] stands for ValueError.  ASCII digits only, and of any
    number: the interpreter's limit on the length of an int literal is not
    modelled. *)
Definition parse_int (s : string) : option Z :=
  let '(negative, body) := split_sign (strip s) in
  match int_digits body 0 false with
  | Some n => Some (if negative then - n else n)
  | None => None
  end.

(** The longest prefix of digits: its value, its length, and the rest. *)
Fixpoint span_digits (s : string) (acc : Z) (len : Z) : Z * Z * string :=
  match s with
  | String c s' =>
      if is_digit c then span_digits s' (10 * acc + digit_val c) (len + 1)
      else (acc, len, s)
  | EmptyString => (acc, len, s)
  end.

(** The exponent part [E[+-]?digits] up to the end of the string. *)
Definition parse_exponent (s : string) : option Z :=
  match s with
  | EmptyString => Some 0
  | String c s' =>
      if Ascii.eqb c "e" || Ascii.eqb c "E" then
        let '(negative, body) := split_sign s' in
        match span_digits body 0 0 with
        | (n, len, EmptyString) =>
            if 0 <? len then Some (if negative then - n else n) else None
        | _ => None
        end
      else None
  end.

(** [Decimal(s)] for the spelling of a finite number: surrounding white
    space and underscores are dropped, then
    [sign? (digits (. digits?)? | . digits) (E sign? digits)?].
    [None] stands for decimal.InvalidOperation.  ASCII digits only; the
    spellings of infinities and NaNs have no decimal point and are
    rejected here. *)
Definition parse_decimal (s : string) : option Decimal :=
  let '(negative, body) := split_sign (remove_char "_" (strip s)) in
  let '(ip, ilen, r1) := span_digits body 0 0 in
  let '(fp, flen, r2) :=
    match r1 with
    | String "." r => span_digits r ip 0
    | _ => (ip, 0, r1)
    end in
  if 0 <? ilen + flen then
    match parse_exponent r2 with
    | Some e => Some (mkDec (if negative then - fp else fp) (e - flen))
    | None => None
    end
  else None.

(** [Decimal(value).quantize(q, rounding=ROUND_HALF_UP)] for a quantum [q]
    of [places] fractional digits, under the guard on [pd.isna(value)]: the
    conversion shared by [to_decimal_round] and the two-place rounding of
    the table.  A NaN is handed back as it is; an infinity cannot be
    quantized; a string is parsed first.  No string spelling a NaN gets
    here: [__init__] converts only strings with a decimal point and no
    cell of the table is a string. *)
Definition quantize_value (v : value) (places : Z) : result value :=
  match v with
  | VFloat Flt.Fnan => Ok v
  | VFloat (Flt.Finf _) => Raise InvalidOperation
  | VFloat (Flt.Ffin m e) => q <- quantize (Flt.to_decimal m e) places ;; Ok (VDec q)
  | VInt n => q <- quantize (of_int n) places ;; Ok (VDec q)
  | VDec d => q <- quantize d places ;; Ok (VDec q)
  | VStr s =>
      match parse_decimal s with
      | Some d => q <- quantize d places ;; Ok (VDec q)
      | None => Raise InvalidOperation
      end
  end.

(** [to_decimal_round(value, decimal_places=20)] *)
Definition to_decimal_round (v : value) (decimal_places : Z) : result value :=
  quantize_value v decimal_places.

(** [int(s)] for a string *)
Definition py_int_str (s : string) : result value :=
  match parse_int s with
  | Some n => Ok (VInt n)
  | None => Raise (ValueError "invalid literal for int() with base 10")
  end.

(** [int(v)], as [astype(int)] applies it to a cell: truncation towards
    zero. *)
Definition py_int (v : value) : result value :=
  match v with
  | VInt n => Ok v
  | VDec d =>
      Ok (VInt (if 0 <=? dexp d then coef d * 10 ^ dexp d
                else Z.quot (coef d) (10 ^ (- dexp d))))
  | VFloat (Flt.Ffin m e) => Ok (VInt (Z.quot (Flt.num m e) (Flt.den e)))
  | VFloat (Flt.Finf _) => Raise OverflowError
  | VFloat Flt.Fnan => Raise (ValueError "cannot convert float NaN to integer")
  | VStr s => py_int_str s
  end.

(** [try: body except ValueError: pass], the value staying [keep] when the
    handler runs.  Any other exception propagates. *)
Definition except_ValueError {A : Type} (body : result A) (keep : A) : result A :=
  match body with
  | Raise (ValueError _) => Ok keep
  | r => r
  end.

(** ** The configuration file *)

Definition section : Type := list (string * string).

(** The content of a parsed ini file: the DEFAULT section and the named
    sections, keys as the parser stores them (lower case), values stripped
    and interpolated. *)
Record ConfigParser : Type := mkConfig {
  defaults : section;
  sections : list (string * section)
}.

Fixpoint lookup {A : Type} (k : string) (l : list (string * A)) : option A :=
  match l with
  | [] => None
  | (k', a) :: l' => if String.eqb k k' then Some a else lookup k l'
  end.

Definition mem {A : Type} (k : string) (l : list (string * A)) : bool :=
  match lookup k l with Some _ => true | None => false end.

(** [section in config.sections()] *)
Definition has_section (config : ConfigParser) (name : string) : bool :=
  mem name (sections config).

(** [key in config[section]]: the keys of DEFAULT count for every section. *)
Definition has_option (config : ConfigParser) (name key : string) : bool :=
  match lookup name (sections config) with
  | Some sec => mem key sec || mem key (defaults config)
  | None => false
  end.

(** [config[section].items()]: the section's own entries in file order, then
    the DEFAULT entries it does not override. *)
Definition items (config : ConfigParser) (name : string) : result section :=
  match lookup name (sections config) with
  | Some sec =>
      Ok (sec ++ filter (fun kv => negb (mem (fst kv) sec)) (defaults config))
  | None => Raise (KeyError name)
  end.

Definition required_keys : list string :=
  ["name"; "age"; "maximum_age"; "pension_fund_value"; "annual_income";
   "pct_growth_above_inflation"; "pct_charges_above_inflation"]%string.

Fixpoint check_keys (config : ConfigParser) (sec : string) (keys : list string)
  : result unit :=
  match keys with
  | [] => Ok tt
  | key :: rest =>
      if negb (has_option config sec key)
      then Raise (ValueError (key ++ " missing from " ++ sec))
      else check_keys config sec rest
  end.

Fixpoint check_sections (config : ConfigParser) (secs : list string) : result unit :=
  match secs with
  | [] => Ok tt
  | sec :: rest =>
      if negb (has_section config sec)
      then Raise (ValueError ("Missing section: " ++ sec))
      else _ <- check_keys config sec required_keys ;;
           check_sections config rest
  end.

(** [validate_config(script_dir)]: [file] is the parsed content of
    graph_values.ini, [None] when the file does not exist. *)
Definition validate_config (file : option ConfigParser) : result ConfigParser :=
  match file with
  | None => Raise (FileNotFoundError "Missing file")
  | Some config =>
      _ <- check_sections config ["Values"%string] ;;
      Ok config
  end.

(** ** The AMR_Graph object *)

(** The instance attributes, set by name. *)
Definition AMR_Graph : Type := list (string * value).

Fixpoint setattr (self : AMR_Graph) (key : string) (v : value) : AMR_Graph :=
  match self with
  | [] => [(key, v)]
  | (k, w) :: rest =>
      if String.eqb key k then (k, v) :: rest else (k, w) :: setattr rest key v
  end.

Definition getattr (self : AMR_Graph) (key : string) : result value :=
  match lookup key self with
  | Some v => Ok v
  | None => Raise (AttributeError key)
  end.

(** The body of the loop of [__init__] on one raw value. *)
Definition convert (raw : string) : result value :=
  let value := remove_char "," raw in
  except_ValueError
    (if contains_char "." value
     then to_decimal_round (VStr value) 20
     else py_int_str value)
    (VStr value).

Fixpoint set_values (self : AMR_Graph) (its : section) : result AMR_Graph :=
  match its with
  | [] => Ok self
  | (key, raw) :: rest =>
      v <- convert raw ;;
      set_values (setattr self key v) rest
  end.

(** [AMR_Graph.__init__(self, config, script_dir)] *)
Definition AMR_Graph_init (config : ConfigParser) (script_dir : string)
  : result AMR_Graph :=
  its <- items config "Values" ;;
  self <- set_values [("script_dir"%string, VStr script_dir)] its ;;
  g <- getattr self "pct_growth_above_inflation" ;;
  g' <- py_div100 g ;;
  let self := setattr self "pct_growth_above_inflation" g' in
  c <- getattr self "pct_charges_above_inflation" ;;
  c' <- py_div100 c ;;
  Ok (setattr self "pct_charges_above_inflation" c').

(** ** The table *)

(** One row of the data frame; the column [pension_fund_value] holds the
    fund value at the start of the year.  The frame is the list of its rows
    and its ints are Python's, unbounded. *)
Record Row : Type := mkRow {
  Age : value;
  pension_fund_value : value;
  projected_growth : value;
  charges : value;
  ending_fund_value : value
}.

Definition DataFrame : Type := list Row.

(** [df.iloc[-1]['ending_fund_value']] *)
Definition iloc_last_ending (df : DataFrame) : result value :=
  match rev df with
  | r :: _ => Ok (ending_fund_value r)
  | [] => Raise IndexError
  end.

(** The first row (lines 118 to 128). *)
Definition first_row (self : AMR_Graph) : result Row :=
  fund <- getattr self "pension_fund_value" ;;
  g <- getattr self "pct_growth_above_inflation" ;;
  x <- py_mul fund g ;;
  initial_growth_value <- to_decimal_round x 20 ;;
  c <- getattr self "pct_charges_above_inflation" ;;
  y <- py_mul fund c ;;
  initial_charge_value <- to_decimal_round y 20 ;;
  age <- getattr self "age" ;;
  start <- to_decimal_round fund 20 ;;
  e1 <- py_add fund initial_growth_value ;;
  income <- getattr self "annual_income" ;;
  e2 <- py_sub e1 income ;;
  e3 <- py_sub e2 initial_charge_value ;;
  Ok (mkRow age start initial_growth_value initial_charge_value e3).

(** One turn of the loop (lines 140 to 151): the row for index [i]. *)
Definition next_row (self : AMR_Graph) (df : DataFrame) (i : Z) : result Row :=
  previous_end_fund_value <- iloc_last_ending df ;;
  g <- getattr self "pct_growth_above_inflation" ;;
  x <- py_mul previous_end_fund_value g ;;
  projected_growth <- to_decimal_round x 20 ;;
  c <- getattr self "pct_charges_above_inflation" ;;
  y <- py_mul previous_end_fund_value c ;;
  projected_charge <- to_decimal_round y 20 ;;
  age <- getattr self "age" ;;
  a1 <- py_add age (VInt i) ;;
  a2 <- py_add a1 (VInt 1) ;;
  e1 <- py_add previous_end_fund_value projected_growth ;;
  income <- getattr self "annual_income" ;;
  e2 <- py_sub e1 income ;;
  e3 <- py_sub e2 projected_charge ;;
  Ok (mkRow a2 previous_end_fund_value projected_growth projected_charge e3).

(** [for i in range(no_rows)]: each new row is appended to the frame. *)
Fixpoint add_rows (self : AMR_Graph) (indices : list Z) (df : DataFrame)
  : result DataFrame :=
  match indices with
  | [] => Ok df
  | i :: rest =>
      new_row <- next_row self df i ;;
      add_rows self rest (df ++ [new_row])
  end.

(** [range(n)]: empty when [n] is not positive; only an int is accepted. *)
Definition py_range (n : value) : result (list Z) :=
  match n with
  | VInt k => Ok (map Z.of_nat (seq 0 (Z.to_nat k)))
  | _ => Raise TypeError
  end.

(** The frame at the end of the loop (lines 118 to 154), before any
    two-place rounding. *)
Definition compute_rows (self : AMR_Graph) : result DataFrame :=
  row0 <- first_row self ;;
  maximum_age <- getattr self "maximum_age" ;;
  age <- getattr self "age" ;;
  no_rows <- py_sub maximum_age age ;;
  indices <- py_range no_rows ;;
  add_rows self indices [row0].

Fixpoint mapM {A B : Type} (f : A -> result B) (l : list A) : result (list B) :=
  match l with
  | [] => Ok []
  | a :: l' => b <- f a ;; bs <- mapM f l' ;; Ok (b :: bs)
  end.

(** Lines 157 and 161 on one row: every cell quantized to two places, then
    the age made an int again.  The source visits the frame column by
    column; every failure of a cell is the same InvalidOperation, so the
    order of the visits does not show in the result. *)
Definition round_row (r : Row) : result Row :=
  a <- quantize_value (Age r) 2 ;;
  s <- quantize_value (pension_fund_value r) 2 ;;
  g <- quantize_value (projected_growth r) 2 ;;
  c <- quantize_value (charges r) 2 ;;
  e <- quantize_value (ending_fund_value r) 2 ;;
  Ok (mkRow a s g c e).

Definition age_astype_int (r : Row) : result Row :=
  a <- py_int (Age r) ;;
  Ok (mkRow a (pension_fund_value r) (projected_growth r) (charges r)
            (ending_fund_value r)).

(** The table that is written to the csv file. *)
Definition round_2dp (df : DataFrame) : result DataFrame :=
  df2 <- mapM round_row df ;;
  mapM age_astype_int df2.

(** Line 170: [df.loc[df['ending_fund_value'] < 0, 'ending_fund_value'] = 0] *)
Definition clamp_row (r : Row) : result Row :=
  below <- py_lt0 (ending_fund_value r) ;;
  Ok (if below : bool
      then mkRow (Age r) (pension_fund_value r) (projected_growth r) (charges r)
                 (VInt 0)
      else r).

Definition clamp_negative (df : DataFrame) : result DataFrame :=
  mapM clamp_row df.

(** What a run leaves in the working directory: the csv table and the
    chart, each named after the [name] attribute. *)
Inductive output : Type :=
| CsvFile (name : value) (table : DataFrame)
| PngFile (name : value) (series : DataFrame).

(** [create_dataframe(self)]: the files written and the frame returned for
    the chart. *)
Definition create_dataframe (self : AMR_Graph) : list output * result DataFrame :=
  match compute_rows self with
  | Raise e => ([], Raise e)
  | Ok df =>
      match round_2dp df with
      | Raise e => ([], Raise e)
      | Ok table =>
          match getattr self "name" with
          | Raise e => ([], Raise e)
          | Ok name => ([CsvFile name table], clamp_negative table)
          end
      end
  end.

(** [create_graph(self, df)]: the bar chart is the plotting library's work;
    the model keeps the file it saves. *)
Definition create_graph (self : AMR_Graph) (df : DataFrame) : list output * result unit :=
  match getattr self "name" with
  | Raise e => ([], Raise e)
  | Ok name => ([PngFile name df], Ok tt)
  end.

(** A configuration key named like a method has become an instance
    attribute by [setattr]; it hides the method and cannot be called. *)
Definition method_hidden (self : AMR_Graph) (name : string) : bool :=
  mem name self.

(** [AMR_Graph.main(self)] *)
Definition AMR_Graph_main (self : AMR_Graph) : list output * result unit :=
  if method_hidden self "create_dataframe" then ([], Raise TypeError)
  else
    match create_dataframe self with
    | (out, Raise e) => (out, Raise e)
    | (out, Ok df) =>
        if method_hidden self "create_graph" then (out, Raise TypeError)
        else let '(out', r) := create_graph self df in (out ++ out', r)
    end.

(** The script: validate the configuration, build the object, run it. *)
Definition script (file : option ConfigParser) (script_dir : string)
  : list output * result unit :=
  match validate_config file with
  | Raise e => ([], Raise e)
  | Ok config =>
      match AMR_Graph_init config script_dir with
      | Raise e => ([], Raise e)
      | Ok obj =>
          if method_hidden obj "main" then ([], Raise TypeError)
          else AMR_Graph_main obj
      end
  end.

(** ** Valid configurations

    The object of a valid configuration: integer ages with
    [age <= maximum_age], non-negative amounts (an int, or a decimal as
    [__init__] stores it, with twenty fractional digits), and decimal
    rates. *)

Definition is_amount (v : value) : bool :=
  match v with
  | VInt n => 0 <=? n
  | VDec d => (0 <=? coef d) && (dexp d =? -20)
  | _ => false
  end.

Definition is_rate (v : value) : bool :=
  match v with
  | VDec _ => true
  | _ => false
  end.

Definition valid_config (self : AMR_Graph) : bool :=
  match lookup "age" self, lookup "maximum_age" self with
  | Some (VInt a), Some (VInt m) =>
      match lookup "pension_fund_value" self, lookup "annual_income" self,
            lookup "pct_growth_above_inflation" self,
            lookup "pct_charges_above_inflation" self with
      | Some f, Some i, Some g, Some c =>
          (a <=? m) && is_amount f && is_amount i && is_rate g && is_rate c
      | _, _, _, _ => false
      end
  | _, _ => false
  end.

(** ** Sample configurations *)

Definition ini (name age maximum_age fund income growth charge : string)
  : ConfigParser :=
  mkConfig []
    [("Values",
      [("name", name); ("age", age); ("maximum_age", maximum_age);
       ("pension_fund_value", fund); ("annual_income", income);
       ("pct_growth_above_inflation", growth);
       ("pct_charges_above_inflation", charge)])]%string.

(** The object [__init__] builds from such a file when the ages and amounts
    are numeric and the rates are written with a decimal point. *)
Definition object (age maximum_age : Z) (fund income : value) (growth charge : Decimal)
  : AMR_Graph :=
  [("script_dir", VStr "."); ("name", VStr "client");
   ("age", VInt age); ("maximum_age", VInt maximum_age);
   ("pension_fund_value", fund); ("annual_income", income);
   ("pct_growth_above_inflation", VDec growth);
   ("pct_charges_above_inflation", VDec charge)]%string.

Definition five_percent : Decimal := mkDec 5000000000000000000 (-20).
Definition one_percent : Decimal := mkDec 1000000000000000000 (-20).

(** age 60 to 62, fund 1000, income 2000, growth 5%, charges 1% *)
Definition clamp_scenario : AMR_Graph :=
  object 60 62 (VInt 1000) (VInt 2000) five_percent one_percent.

(** one row, fund 99,999,999, no income, growth 5.000000000000000001%,
    charges 1% *)
Definition precision_scenario : AMR_Graph :=
  object 60 60 (VInt 99999999) (VInt 0) (mkDec 5000000000000000001 (-20))
         one_percent.

(** one row, fund 1, no income, growth 0.5%, charges 0.1% *)
Definition rounding_scenario : AMR_Graph :=
  object 60 60 (VInt 1) (VInt 0) (mkDec 500000000000000000 (-20))
         (mkDec 100000000000000000 (-20)).

(** The file of the clamp scenario without its [annual_income] line. *)
Definition ini_without_income : ConfigParser :=
  mkConfig []
    [("Values",
      [("name", "client"); ("age", "60"); ("maximum_age", "62");
       ("pension_fund_value", "1000");
       ("pct_growth_above_inflation", "5.0");
       ("pct_charges_above_inflation", "1.0")])]%string.

(** ** Properties of rows and views *)

(** The same number written with [j] more trailing zeros. *)
Definition shift (d : Decimal) (j : Z) : Decimal :=
  mkDec (coef d * 10 ^ j) (dexp d - j).

(** What the loop computes from the starting value of a row:
    [to_decimal_round(start * rate)] and
    [start + growth - income - charge]. *)
Definition growth_of (start rate : value) : result value :=
  x <- py_mul start rate ;; to_decimal_round x 20.

Definition ending_of (start growth income charge : value) : result value :=
  e1 <- py_add start growth ;;
  e2 <- py_sub e1 income ;;
  py_sub e2 charge.

Definition row_formulas (self : AMR_Graph) (r : Row) : Prop :=
  exists g c income,
    getattr self "pct_growth_above_inflation" = Ok g /\
    getattr self "pct_charges_above_inflation" = Ok c /\
    getattr self "annual_income" = Ok income /\
    growth_of (pension_fund_value r) g = Ok (projected_growth r) /\
    growth_of (pension_fund_value r) c = Ok (charges r) /\
    ending_of (pension_fund_value r) (projected_growth r) income (charges r)
      = Ok (ending_fund_value r).

(** Each row starts from the ending value of the row before. *)
Definition chained (df : DataFrame) : Prop :=
  forall k prev r,
    nth_error df k = Some prev -> nth_error df (S k) = Some r ->
    pension_fund_value r = ending_fund_value prev.


(** The monetary cells of a row of the loop: growth and charges with
    exactly twenty fractional digits, the fund values with at most twenty,
    every coefficient within the 28 digits of the context. *)
Definition carried (r : Row) : Prop :=
  exists s g c e,
    pension_fund_value r = VDec s /\ projected_growth r = VDec g /\
    charges r = VDec c /\ ending_fund_value r = VDec e /\
    dexp g = -20 /\ dexp c = -20 /\ -20 <= dexp s /\ -20 <= dexp e /\
    Z.abs (coef s) < 10 ^ prec /\ Z.abs (coef g) < 10 ^ prec /\
    Z.abs (coef c) < 10 ^ prec /\ Z.abs (coef e) < 10 ^ prec.

(** The coefficient of an amount at exponent -20. *)
Definition amount_coef (v : value) : Z :=
  match v with
  | VInt n => n * 10 ^ 20
  | VDec d => coef d
  | _ => 0
  end.

(** The figures of a row, the income included, add up to less than 10^8 in
    magnitude: coefficients at exponent -20 below 10^28. *)
Definition small (income : value) (r : Row) : Prop :=
  match pension_fund_value r, projected_growth r, charges r with
  | VDec s, VDec g, VDec c =>
      Z.abs (coef s) + Z.abs (coef g) + Z.abs (amount_coef income)
      + Z.abs (coef c) < 10 ^ prec
  | _, _, _ => False
  end.

(** Every monetary cell of the row has exactly twenty fractional digits and
    the ending value is the exact sum. *)
Definition full_precision (income : value) (r : Row) : Prop :=
  exists s g c e,
    pension_fund_value r = VDec s /\ projected_growth r = VDec g /\
    charges r = VDec c /\ ending_fund_value r = VDec e /\
    dexp s = -20 /\ dexp g = -20 /\ dexp c = -20 /\ dexp e = -20 /\
    coef e = coef s + coef g - amount_coef income - coef c.

(** Row [t] of the csv table against row [r] of the loop. *)
Definition rounded (r t : Row) : Prop :=
  (a <- quantize_value (Age r) 2 ;; py_int a) = Ok (Age t) /\
  quantize_value (pension_fund_value r) 2 = Ok (pension_fund_value t) /\
  quantize_value (projected_growth r) 2 = Ok (projected_growth t) /\
  quantize_value (charges r) 2 = Ok (charges t) /\
  quantize_value (ending_fund_value r) 2 = Ok (ending_fund_value t).

(** The monetary cells of a row of the csv table: two fractional digits. *)
Definition two_places (t : Row) : Prop :=
  exists s g c e,
    pension_fund_value t = VDec s /\ projected_growth t = VDec g /\
    charges t = VDec c /\ ending_fund_value t = VDec e /\
    dexp s = -2 /\ dexp g = -2 /\ dexp c = -2 /\ dexp e = -2.


(** ** Further predicates and sample inputs *)

(** What [__init__] stores: ints, strings and decimals of twenty places. *)
Definition stored (v : value) : Prop :=
  match v with
  | VInt _ | VStr _ => True
  | VDec d => dexp d = -20 /\ Z.abs (coef d) < 10 ^ prec
  | VFloat _ => False
  end.

Definition is_percentage (k : string) : bool :=
  String.eqb k "pct_growth_above_inflation"
  || String.eqb k "pct_charges_above_inflation".

(** A cell of the csv table: a decimal of two places, or a NaN handed
    through. *)
Definition rounded_cell (w : value) : Prop :=
  (exists q, w = VDec q /\ dexp q = -2 /\ Z.abs (coef q) < 10 ^ prec)
  \/ w = VFloat Flt.Fnan.

Definition decimal_exn (e : exn) : Prop :=
  e = InvalidOperation \/ e = DecimalOverflow.

(** An int or a decimal. *)
Definition numeric (v : value) : Prop :=
  match v with
  | VInt _ | VDec _ => True
  | _ => False
  end.

(** An attribute of a constructed object: a rate is a finite float or a
    decimal, anything else is as [convert] left it. *)
Definition rate_value (v : value) : Prop :=
  match v with
  | VFloat (Flt.Ffin _ _) | VDec _ => True
  | _ => False
  end.

(** No key is listed twice. *)
Fixpoint unique_keys (its : section) : bool :=
  match its with
  | [] => true
  | (k, _) :: rest => negb (mem k rest) && unique_keys rest
  end.

(** The clamp scenario with a further key named like the method [main]. *)
Definition ini_with_main_key : ConfigParser :=
  mkConfig []
    [("Values",
      [("name", "client"); ("age", "60"); ("maximum_age", "62");
       ("pension_fund_value", "1000"); ("annual_income", "2000");
       ("pct_growth_above_inflation", "5.0");
       ("pct_charges_above_inflation", "1.0"); ("main", "1")])]%string.


(** The clamp scenario with a fund of 100,000,000. *)
Definition large_fund_scenario : AMR_Graph :=
  object 60 62 (VInt 100000000) (VInt 2000) five_percent one_percent.

(** The object of the clamp scenario when the growth is written [5]. *)
Definition float_rate_scenario : AMR_Graph :=
  [("script_dir", VStr "."); ("name", VStr "client");
   ("age", VInt 60); ("maximum_age", VInt 62);
   ("pension_fund_value", VInt 1000); ("annual_income", VInt 2000);
   ("pct_growth_above_inflation", VFloat (Flt.Ffin 7205759403792794 (-57)));
   ("pct_charges_above_inflation", VDec one_percent)]%string.

(** The table the loop computes for the clamp scenario, and its two-place
    rounding. *)
Definition clamp_scenario_rows : DataFrame :=
  Eval vm_compute in
    match compute_rows clamp_scenario with Ok df => df | Raise _ => [] end.

Definition clamp_scenario_table : DataFrame :=
  Eval vm_compute in
    match round_2dp clamp_scenario_rows with Ok t => t | Raise _ => [] end.

(** * Checks on concrete inputs *)

Example clamp_scenario_init :
  AMR_Graph_init (ini "client" "60" "62" "1000" "2000" "5.0" "1.0") "."
  = Ok clamp_scenario.
Proof. reflexivity. Qed.

Example precision_scenario_init :
  AMR_Graph_init
    (ini "client" "60" "60" "99,999,999" "0" "5.000000000000000001" "1.0") "."
  = Ok precision_scenario.
Proof. reflexivity. Qed.

Example rounding_scenario_init :
  AMR_Graph_init (ini "client" "60" "60" "1" "0" "0.5" "0.1") "."
  = Ok rounding_scenario.
Proof. reflexivity. Qed.

Example clamp_scenario_small :
  exists df,
    compute_rows clamp_scenario = Ok df /\ Forall (small (VInt 2000)) df.
Proof.
  eexists. split; [vm_compute; reflexivity|].
  repeat constructor.
Qed.

Example clamp_scenario_rows_computed :
  compute_rows clamp_scenario = Ok clamp_scenario_rows.
Proof. vm_compute; reflexivity. Qed.

Example float_5_percent :
  Flt.int_truediv 5 100 = Ok (Flt.Ffin 7205759403792794 (-57)).
Proof. reflexivity. Qed.

Example float_1000_times_5_percent :
  Flt.mul (Flt.Ffin 1000 0) (Flt.Ffin 7205759403792794 (-57))
  = Flt.Ffin 7036874417766400 (-47).
Proof. reflexivity. Qed.

Example decimal_of_50 : Flt.to_decimal 7036874417766400 (-47) = mkDec 50 0.
Proof. reflexivity. Qed.

Example parse_int_commas :
  parse_int (remove_char "," "1,000,000") = Some 1000000.
Proof. reflexivity. Qed.

Example convert_commas : convert "1,000,000" = Ok (VInt 1000000).
Proof. reflexivity. Qed.

Example parse_decimal_5 : parse_decimal "5.0" = Some (mkDec 50 (-1)).
Proof. reflexivity. Qed.

Example parse_decimal_name : parse_decimal "J.Smith" = None.
Proof. reflexivity. Qed.

(** * Lemmas

    ** Digits and rounding *)

Lemma pow10_pos (k : Z) : 0 <= k -> 0 < 10 ^ k.
Proof. intros; apply Z.pow_pos_nonneg; lia. Qed.

Lemma pow10_succ (k : Z) : 0 <= k -> 10 ^ (k + 1) = 10 * 10 ^ k.
Proof. intros; rewrite Z.pow_add_r by lia; lia. Qed.

Lemma ndigits_aux_pos (fuel : nat) (n : Z) : 1 <= ndigits_aux fuel n.
Proof.
  revert n; induction fuel as [|f IH]; intros n; cbn [ndigits_aux]; [lia|].
  destruct (n <? 10); [lia|]. specialize (IH (n / 10)); lia.
Qed.

Lemma ndigits_aux_spec (fuel : nat) :
  forall n, 0 < n -> n < 2 ^ (Z.of_nat fuel + 1) ->
  10 ^ (ndigits_aux fuel n - 1) <= n < 10 ^ ndigits_aux fuel n.
Proof.
  induction fuel as [|f IH]; intros n Hpos Hlt.
  - simpl in *. lia.
  - cbn [ndigits_aux]. destruct (Z.ltb_spec n 10) as [H10|H10].
    + simpl; lia.
    + assert (Hq : 0 < n / 10) by (apply Z.div_str_pos; lia).
      assert (Hlt' : n / 10 < 2 ^ (Z.of_nat f + 1)).
      { apply Z.div_lt_upper_bound; [lia|].
        replace (Z.of_nat (S f) + 1) with ((Z.of_nat f + 1) + 1) in Hlt by lia.
        rewrite Z.pow_add_r in Hlt by lia.
        assert (0 < 2 ^ (Z.of_nat f + 1)) by (apply Z.pow_pos_nonneg; lia). lia. }
      specialize (IH _ Hq Hlt').
      pose proof (ndigits_aux_pos f (n / 10)) as Hd.
      set (d := ndigits_aux f (n / 10)) in *.
      replace (1 + d - 1) with ((d - 1) + 1) by lia.
      replace (1 + d) with (d + 1) by lia.
      rewrite !pow10_succ by lia.
      pose proof (Z.div_mod n 10 ltac:(lia)) as Hdm.
      pose proof (Z.mod_pos_bound n 10 ltac:(lia)). lia.
Qed.

Lemma ndigits_pos (c : Z) : 1 <= ndigits c.
Proof. apply ndigits_aux_pos. Qed.

Lemma ndigits_spec (c : Z) :
  c <> 0 -> 10 ^ (ndigits c - 1) <= Z.abs c < 10 ^ ndigits c.
Proof.
  intros Hc. unfold ndigits. apply ndigits_aux_spec; [lia|].
  rewrite Z2Nat.id by apply Z.log2_nonneg.
  replace (Z.log2 (Z.abs c) + 1) with (Z.succ (Z.log2 (Z.abs c))) by lia.
  apply Z.log2_spec; lia.
Qed.

Lemma ndigits_unique (c d : Z) :
  1 <= d -> 10 ^ (d - 1) <= Z.abs c < 10 ^ d -> ndigits c = d.
Proof.
  intros Hd [Hlo Hhi].
  assert (Hc : c <> 0).
  { intros ->. pose proof (pow10_pos (d - 1) ltac:(lia)). simpl in Hlo. lia. }
  destruct (ndigits_spec c Hc) as [Hlo' Hhi'].
  pose proof (ndigits_pos c) as Hp.
  destruct (Z.lt_trichotomy (ndigits c) d) as [Hlt|[Heq|Hgt]]; [|exact Heq|].
  - assert (10 ^ ndigits c <= 10 ^ (d - 1)) by (apply Z.pow_le_mono_r; lia). lia.
  - assert (10 ^ d <= 10 ^ (ndigits c - 1)) by (apply Z.pow_le_mono_r; lia). lia.
Qed.

Lemma ndigits_scale (c j : Z) :
  c <> 0 -> 0 <= j -> ndigits (c * 10 ^ j) = ndigits c + j.
Proof.
  intros Hc Hj. pose proof (ndigits_pos c). pose proof (pow10_pos j Hj).
  destruct (ndigits_spec c Hc) as [Hlo Hhi].
  apply ndigits_unique; [lia|].
  rewrite Z.abs_mul, (Z.abs_eq (10 ^ j)) by lia.
  replace (ndigits c + j - 1) with ((ndigits c - 1) + j) by lia.
  rewrite !Z.pow_add_r by lia. nia.
Qed.

Lemma leb_scale (a b P : Z) : 0 < P -> (a * P <=? 2 * (b * P)) = (a <=? 2 * b).
Proof. intros; destruct (Z.leb_spec (a * P) (2 * (b * P))), (Z.leb_spec a (2 * b)); try reflexivity; nia. Qed.

Lemma ltb_scale (a b P : Z) : 0 < P -> (a * P <? 2 * (b * P)) = (a <? 2 * b).
Proof. intros; destruct (Z.ltb_spec (a * P) (2 * (b * P))), (Z.ltb_spec a (2 * b)); try reflexivity; nia. Qed.

Lemma eqb_scale (a b P : Z) : 0 < P -> (a * P =? 2 * (b * P)) = (a =? 2 * b).
Proof. intros; destruct (Z.eqb_spec (a * P) (2 * (b * P))), (Z.eqb_spec a (2 * b)); try reflexivity; nia. Qed.

Lemma round_digits_scale (r : rounding) (c j k : Z) :
  0 <= j -> 0 <= k -> round_digits r (c * 10 ^ j) (k + j) = round_digits r c k.
Proof.
  intros Hj Hk. unfold round_digits.
  pose proof (pow10_pos j Hj) as HP. pose proof (pow10_pos k Hk) as Hp.
  rewrite Z.pow_add_r by lia.
  rewrite Z.abs_mul, (Z.abs_eq (10 ^ j)) by lia.
  rewrite Z.div_mul_cancel_r by lia.
  rewrite Z.mul_mod_distr_r by lia.
  rewrite Z.sgn_mul, (Z.sgn_pos (10 ^ j)) by lia.
  rewrite Z.mul_1_r.
  destruct r; rewrite ?leb_scale, ?ltb_scale, ?eqb_scale by lia; reflexivity.
Qed.

Lemma round_digits_0 (r : rounding) (c : Z) : round_digits r c 0 = c.
Proof.
  unfold round_digits. rewrite Z.pow_0_r, Z.div_1_r, Z.mod_1_r.
  destruct r; simpl; rewrite Z.mul_comm; apply Z.abs_sgn.
Qed.

Lemma round_digits_exact (r : rounding) (c k : Z) :
  0 <= k -> round_digits r (c * 10 ^ k) k = c.
Proof.
  intros Hk. replace k with (0 + k) at 2 by lia.
  rewrite round_digits_scale by lia. apply round_digits_0.
Qed.

Lemma rescale_shift (r : rounding) (d : Decimal) (j e : Z) :
  0 <= j -> rescale r (shift d j) e = rescale r d e.
Proof.
  intros Hj. unfold rescale, shift; cbn [coef dexp].
  destruct (Z.leb_spec e (dexp d - j)) as [H1|H1];
    destruct (Z.leb_spec e (dexp d)) as [H2|H2]; try lia.
  - f_equal. rewrite <- Z.mul_assoc, <- Z.pow_add_r by lia. f_equal; f_equal; lia.
  - f_equal.
    replace (coef d * 10 ^ j)
      with (coef d * 10 ^ (dexp d - e) * 10 ^ (e - (dexp d - j))).
    + apply round_digits_exact; lia.
    + rewrite <- Z.mul_assoc, <- Z.pow_add_r by lia. f_equal; f_equal; lia.
  - f_equal. replace (e - (dexp d - j)) with ((e - dexp d) + j) by lia.
    apply round_digits_scale; lia.
Qed.

Lemma quantize_shift (d : Decimal) (j p : Z) :
  0 <= j -> quantize (shift d j) p = quantize d p.
Proof. intros Hj. unfold quantize. rewrite rescale_shift by lia. reflexivity. Qed.

Lemma round_digits_bound (r : rounding) (c k : Z) :
  0 <= k -> Z.abs (round_digits r c k) * 10 ^ k <= Z.abs c + 10 ^ k.
Proof.
  intros Hk. unfold round_digits. pose proof (pow10_pos k Hk) as Hp.
  pose proof (Z.div_mod (Z.abs c) (10 ^ k) ltac:(lia)) as Hdm.
  pose proof (Z.mod_pos_bound (Z.abs c) (10 ^ k) Hp) as Hm.
  assert (Hq : 0 <= Z.abs c / 10 ^ k) by (apply Z.div_pos; lia).
  rewrite Z.abs_mul.
  assert (Hs : Z.abs (Z.sgn c) <= 1) by lia.
  match goal with |- context [if ?b then _ else _] => destruct b end;
    rewrite ?(Z.abs_eq (Z.abs c / 10 ^ k + 1)), ?(Z.abs_eq (Z.abs c / 10 ^ k)) by lia;
    nia.
Qed.

Lemma quantize_ok_shape (d q : Decimal) (p : Z) :
  quantize d p = Ok q -> dexp q = - p /\ Z.abs (coef q) < 10 ^ prec.
Proof.
  unfold quantize. destruct (Z.leb_spec (10 ^ prec) (Z.abs (coef (rescale ROUND_HALF_UP d (- p))))); [discriminate|].
  intros [= <-]. split; [|assumption].
  unfold rescale. destruct (_ <=? _); reflexivity.
Qed.

Lemma ctx_fix_bound (d r : Decimal) :
  ctx_fix d = Ok r -> Z.abs (coef r) < 10 ^ prec.
Proof.
  unfold ctx_fix.
  assert (H28 : 0 < 10 ^ prec) by (apply pow10_pos; unfold prec; lia).
  destruct (Z.eqb_spec (coef d) 0) as [Hz|Hnz].
  { intros [= <-]. simpl. lia. }
  destruct (ndigits_spec _ Hnz) as [Hlo Hhi].
  pose proof (ndigits_pos (coef d)) as HL.
  set (L := ndigits (coef d)) in *.
  destruct (Etop <? L + dexp d - prec); [discriminate|].
  set (em := Z.max (L + dexp d - prec) Etiny).
  destruct (Z.ltb_spec (dexp d) em) as [Hr|Hr].
  - set (k := em - dexp d).
    pose proof (round_digits_bound ROUND_HALF_EVEN (coef d) k ltac:(lia)) as Hb.
    set (c := round_digits ROUND_HALF_EVEN (coef d) k) in *.
    assert (Hle : 10 ^ L <= 10 ^ prec * 10 ^ k).
    { rewrite <- Z.pow_add_r by (unfold prec; lia).
      apply Z.pow_le_mono_r; unfold prec in *; lia. }
    pose proof (pow10_pos k ltac:(lia)) as Hk.
    assert (Hc : Z.abs c <= 10 ^ prec) by nia.
    destruct (Z.leb_spec (10 ^ prec) (Z.abs c)) as [Hcarry|Hno].
    + destruct (Etop <? em + 1); [discriminate|].
      intros [= <-]. cbn [coef].
      assert (Hdiv : Z.abs (c / 10) <= Z.abs c).
      { destruct (Z.abs_spec c) as [[? ->]|[? ->]].
        - rewrite Z.abs_eq by (apply Z.div_pos; lia).
          apply Z.div_le_upper_bound; lia.
        - assert (c / 10 < 0) by (apply Z.div_lt_upper_bound; lia).
          rewrite Z.abs_neq by lia.
          assert (c <= 10 * (c / 10) + 9).
          { pose proof (Z.div_mod c 10 ltac:(lia)).
            pose proof (Z.mod_pos_bound c 10 ltac:(lia)). lia. }
          lia. }
      assert (Z.abs (c / 10) <> 10 ^ prec).
      { intros Heq. assert (Z.abs c = 10 ^ prec) by lia.
        destruct (Z.abs_spec c) as [[? Ha]|[? Ha]]; rewrite Ha in *.
        - replace c with (10 ^ prec) in Heq by lia.
          revert Heq. unfold prec. vm_compute. discriminate.
        - replace c with (- 10 ^ prec) in Heq by lia.
          revert Heq. unfold prec. vm_compute. discriminate. }
      lia.
    + intros [= <-]. exact Hno.
  - intros [= <-].
    assert (10 ^ L <= 10 ^ prec) by (apply Z.pow_le_mono_r; unfold prec in *; lia).
    lia.
Qed.

Lemma quantize_zero (e p : Z) : quantize (mkDec 0 e) p = Ok (mkDec 0 (- p)).
Proof.
  unfold quantize, rescale, round_digits; cbn [coef dexp].
  destruct (_ <=? e); reflexivity.
Qed.

Lemma ctx_fix_shift_quantize (d : Decimal) (j p : Z) :
  0 <= j ->
  (x <- ctx_fix (shift d j) ;; quantize x p) = (x <- ctx_fix d ;; quantize x p).
Proof.
  intros Hj. pose proof (pow10_pos j Hj) as HP.
  unfold ctx_fix, shift; cbn [coef dexp].
  destruct (Z.eqb_spec (coef d) 0) as [Hz|Hnz].
  { rewrite Hz. simpl. rewrite !quantize_zero. reflexivity. }
  destruct (Z.eqb_spec (coef d * 10 ^ j) 0) as [Hz'|_]; [nia|].
  rewrite ndigits_scale by lia.
  replace (ndigits (coef d) + j + (dexp d - j) - prec)
    with (ndigits (coef d) + dexp d - prec) by lia.
  destruct (ndigits_spec _ Hnz) as [Hlo Hhi].
  pose proof (ndigits_pos (coef d)) as HL.
  set (L := ndigits (coef d)) in *.
  destruct (Etop <? L + dexp d - prec); [reflexivity|].
  set (em := Z.max (L + dexp d - prec) Etiny).
  destruct (Z.ltb_spec (dexp d) em) as [Hr|Hr].
  - destruct (Z.ltb_spec (dexp d - j) em) as [_|?]; [|lia].
    replace (em - (dexp d - j)) with ((em - dexp d) + j) by lia.
    rewrite round_digits_scale by lia. reflexivity.
  - destruct (Z.ltb_spec (dexp d - j) em) as [Hr'|Hr'].
    + replace (coef d * 10 ^ j)
        with (coef d * 10 ^ (dexp d - em) * 10 ^ (em - (dexp d - j))).
      2:{ rewrite <- Z.mul_assoc, <- Z.pow_add_r by lia. f_equal; f_equal; lia. }
      rewrite round_digits_exact by lia.
      assert (Hsmall : Z.abs (coef d * 10 ^ (dexp d - em)) < 10 ^ prec).
      { pose proof (pow10_pos (dexp d - em) ltac:(lia)).
        rewrite Z.abs_mul, (Z.abs_eq (10 ^ (dexp d - em))) by lia.
        assert (10 ^ L * 10 ^ (dexp d - em) <= 10 ^ prec).
        { rewrite <- Z.pow_add_r by lia.
          apply Z.pow_le_mono_r; unfold prec in *; lia. }
        nia. }
      destruct (Z.leb_spec (10 ^ prec) (Z.abs (coef d * 10 ^ (dexp d - em)))); [lia|].
      cbn [bind].
      replace em with (dexp d - (dexp d - em)) at 2 by lia.
      change (quantize (shift d (dexp d - em)) p = quantize d p).
      apply quantize_shift; lia.
    + cbn [bind]. change (quantize (shift d j) p = quantize d p).
      apply quantize_shift; lia.
Qed.

(** ** Results, attributes and the loop *)

Lemma bind_Ok_inv {A B : Type} (m : result A) (k : A -> result B) (b : B) :
  bind m k = Ok b -> exists a, m = Ok a /\ k a = Ok b.
Proof. destruct m as [a|e]; simpl; [eauto|discriminate]. Qed.

Ltac step H x Hx :=
  apply bind_Ok_inv in H; destruct H as [x [Hx H]].

Ltac inv_bind H :=
  repeat match type of H with
  | bind ?m _ = Ok _ =>
      let E := fresh "E" in
      destruct m eqn:E; cbn [bind] in H; [|discriminate H]
  end.

Lemma getattr_lookup (self : AMR_Graph) (key : string) (v : value) :
  getattr self key = Ok v <-> lookup key self = Some v.
Proof.
  unfold getattr. destruct (lookup key self); split; intros H;
    try discriminate; inversion H; reflexivity.
Qed.

Lemma valid_config_inv (self : AMR_Graph) :
  valid_config self = true ->
  exists a m f i g c,
    getattr self "age" = Ok (VInt a) /\
    getattr self "maximum_age" = Ok (VInt m) /\
    getattr self "pension_fund_value" = Ok f /\
    getattr self "annual_income" = Ok i /\
    getattr self "pct_growth_above_inflation" = Ok (VDec g) /\
    getattr self "pct_charges_above_inflation" = Ok (VDec c) /\
    a <= m /\ is_amount f = true /\ is_amount i = true.
Proof.
  unfold valid_config, getattr.
  destruct (lookup "age" self) as [[a| | |]|]; try discriminate.
  destruct (lookup "maximum_age" self) as [[m| | |]|]; try discriminate.
  destruct (lookup "pension_fund_value" self) as [f|]; try discriminate.
  destruct (lookup "annual_income" self) as [i|]; try discriminate.
  destruct (lookup "pct_growth_above_inflation" self) as [g|]; try discriminate.
  destruct (lookup "pct_charges_above_inflation" self) as [c|]; try discriminate.
  intros H. repeat (apply andb_prop in H; destruct H as [H ?]).
  destruct g as [| |g|]; try discriminate. destruct c as [| |c|]; try discriminate.
  exists a, m, f, i, g, c. repeat split; try assumption; try reflexivity. lia.
Qed.

(** *** The loop *)

Lemma add_rows_invariant (self : AMR_Graph) (Inv : DataFrame -> nat -> Prop) :
  (forall df s r, Inv df s -> next_row self df (Z.of_nat s) = Ok r ->
                  Inv (df ++ [r]) (S s)) ->
  forall n s df df',
    Inv df s ->
    add_rows self (map Z.of_nat (seq s n)) df = Ok df' ->
    Inv df' (s + n)%nat.
Proof.
  intros Hstep. induction n as [|n IH]; intros s df df' Hinv H.
  - simpl in H. inversion H; subst. rewrite Nat.add_0_r. exact Hinv.
  - simpl in H. apply bind_Ok_inv in H. destruct H as [r [Hr H]].
    replace (s + S n)%nat with (S s + n)%nat by lia.
    eapply IH; [|exact H]. eapply Hstep; eassumption.
Qed.

Lemma iloc_last_app (df : DataFrame) (r : Row) :
  iloc_last_ending (df ++ [r]) = Ok (ending_fund_value r).
Proof. unfold iloc_last_ending. rewrite rev_app_distr. reflexivity. Qed.

Lemma mapM_Forall2 {A B : Type} (f : A -> result B) (l : list A) (l' : list B) :
  mapM f l = Ok l' -> Forall2 (fun a b => f a = Ok b) l l'.
Proof.
  revert l'; induction l as [|a l IH]; intros l' H; simpl in H.
  - inversion H. constructor.
  - inv_bind H. inversion H; subst. constructor; auto.
Qed.

Lemma Forall2_nth_error {A B : Type} (R : A -> B -> Prop) (l : list A) (l' : list B) :
  Forall2 R l l' ->
  forall k a b, nth_error l k = Some a -> nth_error l' k = Some b -> R a b.
Proof.
  induction 1 as [|x y l l' Hxy _ IH]; intros [|k] a b Ha Hb; simpl in *;
    try discriminate.
  - inversion Ha; inversion Hb; subst. exact Hxy.
  - eapply IH; eassumption.
Qed.


(** *** Row count and ages *)

Section Ages.

Variable self : AMR_Graph.
Variables a m : Z.
Hypothesis Hage : getattr self "age" = Ok (VInt a).
Hypothesis Hmax : getattr self "maximum_age" = Ok (VInt m).




End Ages.

(** *** The rows of the loop *)

Lemma next_row_inv (self : AMR_Graph) (df : DataFrame) (i : Z) (r : Row) :
  next_row self df i = Ok r ->
  iloc_last_ending df = Ok (pension_fund_value r) /\ row_formulas self r.
Proof.
  unfold next_row. intros H.
  step H prev Hprev. step H g Hg. step H x Hx. step H pg Hpg.
  step H c Hc. step H y Hy. step H pc Hpc. step H age Hage.
  step H a1 Ha1. step H a2 Ha2. step H e1 He1. step H income Hinc.
  step H e2 He2. step H e3 He3.
  inversion H; subst; clear H.
  cbn [pension_fund_value]. split; [exact Hprev|].
  exists g, c, income. unfold growth_of, ending_of;
    cbn [pension_fund_value projected_growth charges ending_fund_value].
  rewrite Hx, Hy, He1. cbn [bind]. rewrite He2. cbn [bind]. auto 10.
Qed.

Lemma iloc_last_inv (df : DataFrame) (x : value) :
  iloc_last_ending df = Ok x ->
  exists l r, df = l ++ [r] /\ x = ending_fund_value r.
Proof.
  unfold iloc_last_ending. destruct (rev df) as [|r l] eqn:Hrev; [discriminate|].
  intros [= <-]. exists (rev l), r. split; [|reflexivity].
  rewrite <- (rev_involutive df), Hrev. reflexivity.
Qed.

Lemma chained_snoc (l : DataFrame) (r0 r : Row) :
  chained (l ++ [r0]) ->
  pension_fund_value r = ending_fund_value r0 ->
  chained ((l ++ [r0]) ++ [r]).
Proof.
  intros Hc Hr k prev r' Hk HSk.
  assert (Hlen : List.length (l ++ [r0]) = S (List.length l))
    by (rewrite length_app; simpl; lia).
  destruct (Nat.lt_ge_cases (S k) (List.length (l ++ [r0]))) as [Hlt|Hge].
  - rewrite nth_error_app1 in Hk by lia. rewrite nth_error_app1 in HSk by lia.
    eapply Hc; eassumption.
  - rewrite nth_error_app2 in HSk by lia.
    destruct (S k - List.length (l ++ [r0]))%nat as [|[|?]] eqn:Hd;
      simpl in HSk; try discriminate.
    inversion HSk; subst r'.
    assert (k = List.length l) by lia. subst k.
    rewrite nth_error_app1 in Hk by lia.
    rewrite nth_error_app2 in Hk by lia.
    rewrite Nat.sub_diag in Hk. simpl in Hk. inversion Hk; subst prev.
    exact Hr.
Qed.

Lemma compute_rows_inv (self : AMR_Graph) (df : DataFrame) :
  compute_rows self = Ok df ->
  exists row0 n,
    first_row self = Ok row0 /\
    add_rows self (map Z.of_nat (seq 0 n)) [row0] = Ok df.
Proof.
  unfold compute_rows. intros H.
  step H row0 H0. step H m Hm. step H a Ha. step H n Hn. step H l Hl.
  unfold py_range in Hl. destruct n; try discriminate.
  inversion Hl; subst. eauto.
Qed.

Lemma compute_rows_chained (self : AMR_Graph) (df : DataFrame) :
  compute_rows self = Ok df -> chained df.
Proof.
  intros H. apply compute_rows_inv in H. destruct H as [row0 [n [_ H]]].
  apply (add_rows_invariant self (fun df _ => chained df)) in H; [exact H| |].
  - intros df0 s r Hc Hr. apply next_row_inv in Hr. destruct Hr as [Hlast _].
    apply iloc_last_inv in Hlast. destruct Hlast as [l [r0 [-> Hs]]].
    apply chained_snoc; assumption.
  - intros [|[|k]] prev r Hk HSk; simpl in *; discriminate.
Qed.

(** *** The first row *)

Lemma quantize_20_fixed (d : Decimal) (q : Decimal) :
  dexp d = -20 -> quantize d 20 = Ok q -> q = d.
Proof.
  destruct d as [c e]; cbn [dexp]; intros ->. unfold quantize, rescale.
  cbn [coef dexp]. change (- (20) <=? -20) with true. cbv iota.
  change (10 ^ (-20 - - (20))) with 1. rewrite Z.mul_1_r. cbn [coef].
  destruct (_ <=? _); [discriminate|]. intros [= <-]. reflexivity.
Qed.

Lemma quantize_of_int (n : Z) (q : Decimal) :
  quantize (of_int n) 20 = Ok q -> q = shift (of_int n) 20.
Proof.
  unfold quantize, rescale, of_int, shift. cbn [coef dexp].
  change (- (20) <=? 0) with true. cbv iota. cbn [coef].
  change (0 - - (20)) with 20. change (0 - 20) with (-20). change (- (20)) with (-20).
  destruct (_ <=? _); [discriminate|]. intros [= <-]. reflexivity.
Qed.

Lemma mul_shift_quantize (d g : Decimal) (j p : Z) :
  0 <= j ->
  (x <- Dec.mul (shift d j) g ;; quantize x p) = (x <- Dec.mul d g ;; quantize x p).
Proof.
  intros Hj. unfold Dec.mul.
  replace (mkDec (coef (shift d j) * coef g) (dexp (shift d j) + dexp g))
    with (shift (mkDec (coef d * coef g) (dexp d + dexp g)) j).
  - apply ctx_fix_shift_quantize; exact Hj.
  - unfold shift; cbn [coef dexp]. f_equal; lia.
Qed.

Lemma add_shift_20 (n : Z) (g : Decimal) :
  dexp g = -20 -> Dec.add (shift (of_int n) 20) g = Dec.add (of_int n) g.
Proof.
  destruct g as [c e]; cbn [dexp]; intros ->.
  unfold Dec.add, shift, of_int; cbn [coef dexp].
  change (Z.min (0 - 20) (-20)) with (-20). change (Z.min 0 (-20)) with (-20).
  change (0 - 20 - -20) with 0. change (-20 - -20) with 0. change (0 - -20) with 20.
  f_equal. f_equal. change (10 ^ 0) with 1. lia.
Qed.

Lemma bind_bind {A B C : Type} (m : result A) (f : A -> result B) (g : B -> result C) :
  bind (bind m f) g = bind m (fun a => bind (f a) g).
Proof. destruct m; reflexivity. Qed.

Lemma to_decimal_round_VDec (v : value) (p : Z) (w : value) :
  to_decimal_round v p = Ok w ->
  match v with VFloat Flt.Fnan => w = v | _ => exists q, w = VDec q /\ dexp q = - p /\ Z.abs (coef q) < 10 ^ prec end.
Proof.
  unfold to_decimal_round, quantize_value.
  destruct v as [n|[m e|s|]|d|s]; try discriminate.
  - intros H; inv_bind H; inversion H; subst. eexists; split; [reflexivity|]. eapply quantize_ok_shape; eassumption.
  - intros H; inv_bind H; inversion H; subst. eexists; split; [reflexivity|]. eapply quantize_ok_shape; eassumption.
  - intros [= <-]; reflexivity.
  - intros H; inv_bind H; inversion H; subst. eexists; split; [reflexivity|]. eapply quantize_ok_shape; eassumption.
  - destruct (parse_decimal s); [|discriminate].
    intros H; inv_bind H; inversion H; subst. eexists; split; [reflexivity|]. eapply quantize_ok_shape; eassumption.
Qed.

Lemma round_VDec_bind (M : result Decimal) (p : Z) :
  (x <- (r <- M ;; Ok (VDec r)) ;; to_decimal_round x p)
  = (q <- (r <- M ;; quantize r p) ;; Ok (VDec q)).
Proof. destruct M; reflexivity. Qed.

Lemma growth_of_start_cell (f s : value) (g : Decimal) :
  is_amount f = true -> to_decimal_round f 20 = Ok s ->
  growth_of s (VDec g) = growth_of f (VDec g).
Proof.
  intros Hf Hs. destruct f as [n| |d|]; try discriminate.
  - unfold to_decimal_round, quantize_value in Hs. inv_bind Hs.
    apply quantize_of_int in E. inversion Hs; subst.
    unfold growth_of, py_mul. rewrite !round_VDec_bind.
    rewrite (mul_shift_quantize (of_int n) g 20 20) by lia. reflexivity.
  - simpl in Hf. apply andb_prop in Hf. destruct Hf as [_ He].
    apply Z.eqb_eq in He.
    unfold to_decimal_round, quantize_value in Hs. inv_bind Hs.
    apply quantize_20_fixed in E; [|exact He]. inversion Hs; subst. reflexivity.
Qed.

Lemma add_start_cell (f s : value) (g : Decimal) :
  is_amount f = true -> to_decimal_round f 20 = Ok s -> dexp g = -20 ->
  py_add s (VDec g) = py_add f (VDec g).
Proof.
  intros Hf Hs Hg. destruct f as [n| |d|]; try discriminate.
  - unfold to_decimal_round, quantize_value in Hs. inv_bind Hs.
    apply quantize_of_int in E. inversion Hs; subst.
    cbn [py_add]. rewrite add_shift_20 by exact Hg. reflexivity.
  - simpl in Hf. apply andb_prop in Hf. destruct Hf as [_ He].
    apply Z.eqb_eq in He.
    unfold to_decimal_round, quantize_value in Hs. inv_bind Hs.
    apply quantize_20_fixed in E; [|exact He]. inversion Hs; subst. reflexivity.
Qed.

Lemma first_row_formulas (self : AMR_Graph) (r : Row) :
  valid_config self = true -> first_row self = Ok r -> row_formulas self r.
Proof.
  intros Hv H. apply valid_config_inv in Hv.
  destruct Hv as (a & m & f & i & g & c & Ha & Hm & Hf & Hi & Hg & Hc & _ & Hfa & _).
  unfold first_row in H. rewrite Hf, Hg, Hc, Ha, Hi in H. cbn [bind] in H.
  step H x Hx. step H ig Hig. step H y Hy. step H ic Hic.
  step H s Hs. step H e1 He1. step H e2 He2. step H e3 He3.
  inversion H; subst; clear H.
  exists (VDec g), (VDec c), i. repeat split; try assumption;
    cbn [pension_fund_value projected_growth charges ending_fund_value].
  - rewrite (growth_of_start_cell f) by assumption.
    unfold growth_of. rewrite Hx. exact Hig.
  - rewrite (growth_of_start_cell f) by assumption.
    unfold growth_of. rewrite Hy. exact Hic.
  - assert (Hq : exists q, ig = VDec q /\ dexp q = -20).
    { apply to_decimal_round_VDec in Hig.
      destruct f as [n| |d|]; try discriminate; cbn [py_mul] in Hx;
        step Hx r Hr; inversion Hx; subst;
        destruct Hig as [q [? [? ?]]]; eauto. }
    destruct Hq as [q [-> Hq]].
    unfold ending_of. rewrite (add_start_cell f) by assumption.
    rewrite He1. cbn [bind]. rewrite He2. exact He3.
Qed.

Lemma compute_rows_formulas (self : AMR_Graph) (df : DataFrame) :
  valid_config self = true -> compute_rows self = Ok df ->
  Forall (row_formulas self) df.
Proof.
  intros Hv H. apply compute_rows_inv in H. destruct H as [row0 [n [H0 H]]].
  apply (add_rows_invariant self (fun df _ => Forall (row_formulas self) df)) in H;
    [exact H| |].
  - intros df0 s r Hall Hr. apply Forall_app. split; [exact Hall|].
    constructor; [|constructor]. apply next_row_inv in Hr. apply Hr.
  - constructor; [|constructor]. apply first_row_formulas; assumption.
Qed.

(** *** Carried precision *)

Lemma ctx_fix_exp_ge (d r : Decimal) (lo : Z) :
  ctx_fix d = Ok r -> lo <= dexp d -> lo <= Emax -> lo <= dexp r.
Proof.
  unfold ctx_fix. intros H Hlo Hmax.
  destruct (coef d =? 0).
  { inversion H; subst; cbn [dexp]. lia. }
  destruct (Etop <? _); [discriminate|].
  destruct (Z.ltb_spec (dexp d) (Z.max (ndigits (coef d) + dexp d - prec) Etiny)).
  - destruct (10 ^ prec <=? _).
    + destruct (Etop <? _); [discriminate|]. inversion H; subst; cbn [dexp]. lia.
    + inversion H; subst; cbn [dexp]. lia.
  - inversion H; subst. exact Hlo.
Qed.

Lemma add_carried (a b r : Decimal) :
  Dec.add a b = Ok r -> -20 <= dexp a -> -20 <= dexp b ->
  -20 <= dexp r /\ Z.abs (coef r) < 10 ^ prec.
Proof.
  unfold Dec.add. intros H Ha Hb. split.
  - eapply ctx_fix_exp_ge; [exact H| |unfold Emax; lia]. cbn [dexp]. lia.
  - eapply ctx_fix_bound; exact H.
Qed.

Lemma sub_carried (a b r : Decimal) :
  Dec.sub a b = Ok r -> -20 <= dexp a -> -20 <= dexp b ->
  -20 <= dexp r /\ Z.abs (coef r) < 10 ^ prec.
Proof. unfold Dec.sub. intros H Ha Hb. eapply add_carried; eauto. Qed.

Lemma growth_of_carried (s g : Decimal) (w : value) :
  growth_of (VDec s) (VDec g) = Ok w ->
  exists q, w = VDec q /\ dexp q = -20 /\ Z.abs (coef q) < 10 ^ prec.
Proof.
  unfold growth_of. cbn [py_mul]. intros H.
  step H x Hx. step Hx r Hr. inversion Hx; subst.
  apply to_decimal_round_VDec in H. exact H.
Qed.

Lemma amount_sub_carried (a : Decimal) (income w : value) :
  is_amount income = true -> py_sub (VDec a) income = Ok w -> -20 <= dexp a ->
  exists r, w = VDec r /\ -20 <= dexp r /\ Z.abs (coef r) < 10 ^ prec.
Proof.
  intros Hi H Ha. destruct income as [n| |d|]; try discriminate; cbn [py_sub] in H;
    step H r Hr; inversion H; subst; exists r; (split; [reflexivity|]);
    eapply sub_carried; try exact Hr; try exact Ha.
  - cbn; lia.
  - simpl in Hi. apply andb_prop in Hi. destruct Hi as [_ Hi].
    apply Z.eqb_eq in Hi. lia.
Qed.

Lemma formulas_carried (self : AMR_Graph) (r : Row) (s : Decimal) :
  valid_config self = true -> row_formulas self r ->
  pension_fund_value r = VDec s -> -20 <= dexp s -> Z.abs (coef s) < 10 ^ prec ->
  carried r.
Proof.
  intros Hv (g' & c' & i' & Hg' & Hc' & Hi' & Hgr & Hch & Hend) Hs Hse Hsb.
  apply valid_config_inv in Hv.
  destruct Hv as (a & m & f & i & g & c & Ha & Hm & Hf & Hi & Hg & Hc & _ & _ & Hia).
  rewrite Hg in Hg'. rewrite Hc in Hc'. rewrite Hi in Hi'.
  inversion Hg'; inversion Hc'; inversion Hi'; subst g' c' i'.
  rewrite Hs in *.
  apply growth_of_carried in Hgr. destruct Hgr as (qg & Hqg & Hge & Hgb).
  apply growth_of_carried in Hch. destruct Hch as (qc & Hqc & Hce & Hcb).
  rewrite Hqg, Hqc in Hend. unfold ending_of in Hend. cbn [py_add] in Hend.
  step Hend e1 He1. step He1 x1 Hx1. inversion He1; subst e1.
  apply add_carried in Hx1; [|lia|lia]. destruct Hx1 as [Hx1e Hx1b].
  step Hend e2 He2.
  apply amount_sub_carried in He2; [|assumption|assumption].
  destruct He2 as (x2 & -> & Hx2e & Hx2b).
  cbn [py_sub] in Hend. step Hend x3 Hx3. inversion Hend as [Hw].
  apply sub_carried in Hx3; [|lia|lia]. destruct Hx3 as [Hx3e Hx3b].
  exists s, qg, qc, x3. repeat split; auto.
Qed.

Lemma first_row_start (self : AMR_Graph) (r : Row) :
  first_row self = Ok r ->
  exists f, getattr self "pension_fund_value" = Ok f /\
            to_decimal_round f 20 = Ok (pension_fund_value r).
Proof.
  unfold first_row. intros H.
  step H f Hf. step H g Hg. step H x Hx. step H ig Hig.
  step H c Hc. step H y Hy. step H ic Hic. step H age Hage.
  step H s Hs. step H e1 He1. step H income Hinc.
  step H e2 He2. step H e3 He3. inversion H; subst. eauto.
Qed.

Lemma first_row_carried (self : AMR_Graph) (r : Row) :
  valid_config self = true -> first_row self = Ok r ->
  carried r /\ exists s, pension_fund_value r = VDec s /\ dexp s = -20.
Proof.
  intros Hv H. pose proof (first_row_formulas _ _ Hv H) as Hform.
  apply first_row_start in H. destruct H as (f & Hf & Hs).
  pose proof (valid_config_inv _ Hv) as
    (a & m & f' & i & g & c & _ & _ & Hf' & _ & _ & _ & _ & Hfa & _).
  rewrite Hf in Hf'. inversion Hf'; subst f'.
  apply to_decimal_round_VDec in Hs.
  assert (Hq : exists q, pension_fund_value r = VDec q /\ dexp q = -20
                         /\ Z.abs (coef q) < 10 ^ prec).
  { destruct f as [| |d|]; try discriminate; exact Hs. }
  destruct Hq as (q & Hq & He & Hb). split; [|eauto].
  eapply formulas_carried; eauto. lia.
Qed.

Lemma compute_rows_carried (self : AMR_Graph) (df : DataFrame) :
  valid_config self = true -> compute_rows self = Ok df -> Forall carried df.
Proof.
  intros Hv H. apply compute_rows_inv in H. destruct H as [row0 [n [H0 H]]].
  apply (add_rows_invariant self (fun df _ => Forall carried df)) in H;
    [exact H| |].
  - intros df0 s r Hall Hr. apply Forall_app. split; [exact Hall|].
    constructor; [|constructor]. apply next_row_inv in Hr.
    destruct Hr as [Hlast Hform].
    apply iloc_last_inv in Hlast. destruct Hlast as (l & r0 & -> & Hs).
    apply Forall_app in Hall. destruct Hall as [_ Hr0].
    inversion Hr0 as [|? ? Hc0 _]; subst.
    destruct Hc0 as (s0 & g0 & c0 & e0 & _ & _ & _ & He0 & _ & _ & _ & Hee & _ & _ & _ & Heb).
    rewrite He0 in Hs. eapply formulas_carried; eauto.
  - constructor; [|constructor]. apply (first_row_carried self); assumption.
Qed.

(** *** The two views *)

Lemma Forall2_compose {A B C : Type} (R : A -> B -> Prop) (S : B -> C -> Prop)
      (T : A -> C -> Prop) (l : list A) (l' : list B) (l'' : list C) :
  (forall a b c, R a b -> S b c -> T a c) ->
  Forall2 R l l' -> Forall2 S l' l'' -> Forall2 T l l''.
Proof.
  intros HT H. revert l''. induction H as [|a b l l' Hab _ IH]; intros l'' H';
    inversion H'; subst; constructor; eauto.
Qed.

Lemma round_2dp_rounded (df table : DataFrame) :
  round_2dp df = Ok table -> Forall2 rounded df table.
Proof.
  unfold round_2dp. intros H. step H df2 H2.
  apply mapM_Forall2 in H2. apply mapM_Forall2 in H.
  eapply Forall2_compose; [|exact H2|exact H].
  intros r m t Hr Ht. unfold round_row in Hr. unfold age_astype_int in Ht.
  step Hr a Ha. step Hr s Hs. step Hr g Hg. step Hr c Hc. step Hr e He.
  inversion Hr; subst m; clear Hr. cbn in Ht. step Ht a' Ha'.
  inversion Ht; subst t; clear Ht.
  unfold rounded; cbn. rewrite Ha. cbn [bind]. auto.
Qed.





(** *** Round half up *)

Lemma round_half_up_nearest (c k : Z) :
  0 <= k ->
  let r := round_digits ROUND_HALF_UP c k in
  2 * Z.abs r * 10 ^ k - 10 ^ k <= 2 * Z.abs c < 2 * Z.abs r * 10 ^ k + 10 ^ k.
Proof.
  intros Hk. unfold round_digits. pose proof (pow10_pos k Hk) as Hp.
  pose proof (Z.div_mod (Z.abs c) (10 ^ k) ltac:(lia)) as Hdm.
  pose proof (Z.mod_pos_bound (Z.abs c) (10 ^ k) Hp) as Hm.
  assert (Hq : 0 <= Z.abs c / 10 ^ k) by (apply Z.div_pos; lia).
  cbv zeta. rewrite Z.abs_mul.
  destruct (Z.eq_dec c 0) as [->|Hc].
  - change (Z.abs 0) with 0. change (Z.sgn 0) with 0.
    rewrite Z.mod_0_l, Z.div_0_l by lia.
    destruct (Z.leb_spec (10 ^ k) (2 * 0)); lia.
  - assert (Hs : Z.abs (Z.sgn c) = 1) by lia. rewrite Hs.
    destruct (Z.leb_spec (10 ^ k) (2 * (Z.abs c mod 10 ^ k)));
      rewrite ?(Z.abs_eq (Z.abs c / 10 ^ k + 1)), ?(Z.abs_eq (Z.abs c / 10 ^ k)) by lia;
      nia.
Qed.

(** *** Validation *)


Lemma has_option_section (config : ConfigParser) (sec key : string) :
  has_section config sec = false -> has_option config sec key = false.
Proof.
  unfold has_section, has_option, mem.
  destruct (lookup sec (sections config)); [discriminate|reflexivity].
Qed.

Lemma ctx_fix_exact (d : Decimal) :
  Z.abs (coef d) < 10 ^ prec -> Etiny <= dexp d <= Etop -> ctx_fix d = Ok d.
Proof.
  intros Hb [Hlo Hhi]. unfold ctx_fix.
  destruct (Z.eqb_spec (coef d) 0) as [Hz|Hnz].
  - destruct d as [c e]; cbn [coef dexp] in *. subst c.
    rewrite Z.max_l by lia. rewrite Z.min_l by (unfold Etop, Emax, prec in *; lia).
    reflexivity.
  - destruct (ndigits_spec _ Hnz) as [Hdl _].
    pose proof (ndigits_pos (coef d)) as Hp.
    assert (HL : ndigits (coef d) <= prec).
    { destruct (Z.le_gt_cases (ndigits (coef d)) prec) as [?|Hgt]; [assumption|].
      assert (10 ^ prec <= 10 ^ (ndigits (coef d) - 1))
        by (apply Z.pow_le_mono_r; unfold prec in *; lia).
      lia. }
    destruct (Z.ltb_spec Etop (ndigits (coef d) + dexp d - prec)); [lia|].
    destruct (Z.ltb_spec (dexp d)
                (Z.max (ndigits (coef d) + dexp d - prec) Etiny)); [lia|].
    reflexivity.
Qed.

(** Within 28 digits the product and the sum of the context are the exact
    ones. *)
Lemma mul_exact (a b : Decimal) :
  Z.abs (coef a * coef b) < 10 ^ prec -> Etiny <= dexp a + dexp b <= Etop ->
  Dec.mul a b = Ok (mkDec (coef a * coef b) (dexp a + dexp b)).
Proof. intros; unfold Dec.mul; apply ctx_fix_exact; assumption. Qed.

Lemma add_exact (a b : Decimal) :
  dexp a = dexp b -> Z.abs (coef a + coef b) < 10 ^ prec ->
  Etiny <= dexp a <= Etop ->
  Dec.add a b = Ok (mkDec (coef a + coef b) (dexp a)).
Proof.
  intros He Hb Hr. unfold Dec.add. rewrite <- He, Z.min_id, Z.sub_diag.
  change (10 ^ 0) with 1. rewrite !Z.mul_1_r.
  apply ctx_fix_exact; assumption.
Qed.

(** When the exact product has at most 28 significant digits the rounding
    of the context does not show: quantizing the product of the context is
    quantizing the exact product. *)
Lemma mul_quantize_exact (a b : Decimal) (c j p : Z) :
  0 <= j -> coef a * coef b = c * 10 ^ j -> Z.abs c < 10 ^ prec ->
  Etiny <= dexp a + dexp b + j <= Etop ->
  (x <- Dec.mul a b ;; quantize x p)
  = quantize (mkDec (coef a * coef b) (dexp a + dexp b)) p.
Proof.
  intros Hj Hc Hb Hr. unfold Dec.mul.
  replace (mkDec (coef a * coef b) (dexp a + dexp b))
    with (shift (mkDec c (dexp a + dexp b + j)) j).
  - rewrite ctx_fix_shift_quantize by exact Hj.
    rewrite ctx_fix_exact by assumption. cbn [bind].
    symmetry. apply quantize_shift. exact Hj.
  - unfold shift; cbn [coef dexp]. rewrite Hc. f_equal. lia.
Qed.

Lemma add_rows_prefix (self : AMR_Graph) (indices : list Z) :
  forall df df', add_rows self indices df = Ok df' -> exists rest, df' = df ++ rest.
Proof.
  induction indices as [|i rest IH]; intros df df' H; simpl in H.
  - inversion H; subst. exists []. symmetry; apply app_nil_r.
  - step H r Hr. apply IH in H. destruct H as [rest' ->].
    exists (r :: rest'). rewrite <- app_assoc. reflexivity.
Qed.

Lemma rounded_two_places (r t : Row) : carried r -> rounded r t -> two_places t.
Proof.
  intros (s & g & c & e & Hs & Hg & Hc & He & _) (_ & Hrs & Hrg & Hrc & Hre).
  rewrite Hs in Hrs. rewrite Hg in Hrg. rewrite Hc in Hrc. rewrite He in Hre.
  apply (to_decimal_round_VDec (VDec s)) in Hrs.
  apply (to_decimal_round_VDec (VDec g)) in Hrg.
  apply (to_decimal_round_VDec (VDec c)) in Hrc.
  apply (to_decimal_round_VDec (VDec e)) in Hre.
  destruct Hrs as (s' & ? & ? & _), Hrg as (g' & ? & ? & _),
           Hrc as (c' & ? & ? & _), Hre as (e' & ? & ? & _).
  exists s', g', c', e'. repeat split; assumption.
Qed.

(** ** Full precision while the figures are small *)

Lemma sub_exact (a b : Decimal) :
  dexp a = -20 -> dexp b = -20 -> Z.abs (coef a - coef b) < 10 ^ prec ->
  Dec.sub a b = Ok (mkDec (coef a - coef b) (-20)).
Proof.
  intros Ha Hb Hbound. unfold Dec.sub.
  rewrite (add_exact a (neg b)); cbn [neg coef dexp].
  - rewrite Ha. reflexivity.
  - congruence.
  - replace (coef a + - coef b) with (coef a - coef b) by lia. exact Hbound.
  - rewrite Ha. unfold Etiny, Etop, Emin, Emax, prec. lia.
Qed.

Lemma sub_int_exact (a : Decimal) (n : Z) :
  dexp a = -20 -> Z.abs (coef a - n * 10 ^ 20) < 10 ^ prec ->
  Dec.sub a (of_int n) = Ok (mkDec (coef a - n * 10 ^ 20) (-20)).
Proof.
  intros Ha Hbound. unfold Dec.sub, Dec.add, neg, of_int. cbn [coef dexp].
  rewrite Ha. change (Z.min (-20) 0) with (-20).
  change (-20 - -20) with 0. change (0 - -20) with 20.
  rewrite Z.pow_0_r, Z.mul_1_r.
  replace (coef a + - n * 10 ^ 20) with (coef a - n * 10 ^ 20) by lia.
  apply ctx_fix_exact; cbn [coef dexp]; [exact Hbound|].
  unfold Etiny, Etop, Emin, Emax, prec. lia.
Qed.

Lemma formulas_full_precision (self : AMR_Graph) (r : Row) (s : Decimal) (income : value) :
  valid_config self = true -> row_formulas self r ->
  getattr self "annual_income" = Ok income ->
  pension_fund_value r = VDec s -> dexp s = -20 -> small income r ->
  full_precision income r.
Proof.
  intros Hv (g' & c' & i' & Hg' & Hc' & Hi' & Hgr & Hch & Hend) Hinc Hs Hse Hsmall.
  apply valid_config_inv in Hv.
  destruct Hv as (a & m & f & i & g & c & Ha & Hm & Hf & Hi & Hg & Hc & _ & _ & Hia).
  rewrite Hg in Hg'. rewrite Hc in Hc'. rewrite Hi in Hi'. rewrite Hi in Hinc.
  inversion Hg'; inversion Hc'; inversion Hi'; inversion Hinc; subst g' c' i' income.
  unfold small in Hsmall. rewrite Hs in *.
  apply growth_of_carried in Hgr. destruct Hgr as (qg & Hqg & Hge & Hgb).
  apply growth_of_carried in Hch. destruct Hch as (qc & Hqc & Hce & Hcb).
  rewrite Hqg, Hqc in *. unfold ending_of in Hend. cbn [py_add] in Hend.
  rewrite (add_exact s qg) in Hend;
    [|congruence|lia|rewrite Hse; unfold Etiny, Etop, Emin, Emax, prec; lia].
  cbn [bind] in Hend. rewrite Hse in Hend.
  assert (Hsub : py_sub (VDec (mkDec (coef s + coef qg) (-20))) i
                 = Ok (VDec (mkDec (coef s + coef qg - amount_coef i) (-20)))).
  { destruct i as [n| |d|]; try discriminate; cbn [py_sub amount_coef] in *.
    - rewrite sub_int_exact; cbn [coef dexp]; [reflexivity|reflexivity|lia].
    - simpl in Hia. apply andb_prop in Hia. destruct Hia as [_ Hd].
      apply Z.eqb_eq in Hd.
      rewrite sub_exact; cbn [coef dexp]; [reflexivity|reflexivity|exact Hd|lia]. }
  rewrite Hsub in Hend. cbn [bind py_sub] in Hend.
  rewrite sub_exact in Hend; cbn [coef dexp]; [|reflexivity|exact Hce|lia].
  cbn [bind] in Hend. inversion Hend as [He].
  exists s, qg, qc, (mkDec (coef s + coef qg - amount_coef i - coef qc) (-20)).
  repeat split; auto.
Qed.

Lemma nth_error_pred {A : Type} (l : list A) (k : nat) (x : A) :
  nth_error l (S k) = Some x -> exists y, nth_error l k = Some y.
Proof.
  intros H. destruct (nth_error l k) as [y|] eqn:Hk; [eauto|].
  apply nth_error_None in Hk.
  assert (Hn : nth_error l (S k) = None) by (apply nth_error_None; lia).
  congruence.
Qed.

Lemma compute_rows_full_precision (self : AMR_Graph) (df : DataFrame) (income : value) :
  valid_config self = true -> compute_rows self = Ok df ->
  getattr self "annual_income" = Ok income ->
  forall k r,
    nth_error df k = Some r ->
    (forall j r', (j <= k)%nat -> nth_error df j = Some r' -> small income r') ->
    full_precision income r.
Proof.
  intros Hv H Hinc.
  pose proof (compute_rows_formulas _ _ Hv H) as Hform.
  pose proof (compute_rows_chained _ _ H) as Hch.
  rewrite Forall_forall in Hform.
  induction k as [|k IH]; intros r Hr Hsmall.
  - apply compute_rows_inv in H. destruct H as (row0 & n & H0 & H).
    apply add_rows_prefix in H. destruct H as [rest ->].
    simpl in Hr. inversion Hr; subst r.
    destruct (first_row_carried _ _ Hv H0) as [_ (s0 & Hs0 & He0)].
    apply (formulas_full_precision self row0 s0 income);
      [exact Hv|apply Hform; left; reflexivity|exact Hinc|exact Hs0|exact He0|].
    apply (Hsmall 0%nat); [lia|reflexivity].
  - destruct (nth_error_pred _ _ _ Hr) as [prev Hprev].
    assert (Hp : full_precision income prev).
    { apply IH; [exact Hprev|]. intros j r' Hj. apply Hsmall. lia. }
    destruct Hp as (s & g & c & e & _ & _ & _ & He & _ & _ & _ & Hee & _).
    pose proof (Hch _ _ _ Hprev Hr) as Hstart. rewrite He in Hstart.
    apply (formulas_full_precision self r e income);
      [exact Hv|apply Hform; eapply nth_error_In; exact Hr|exact Hinc
      |exact Hstart|exact Hee|].
    apply (Hsmall (S k)); [lia|exact Hr].
Qed.

(** * The statements of the specification *)







(** C4. The zero-clamp scenario: age 60 to 62, fund 1000, income 2000,
    growth 5%, charges 1%.  The loop ends row 60 at
    1000 + 50 - 2000 - 10 = -960; the csv table shows -960.00 there and
    starts row 61 from -960.00; the chart series holds 0 for the ending
    value of row 60 (the clamp stores the int 0) and still starts row 61
    from -960.00. *)
Theorem C4_zero_clamp_scenario :
  AMR_Graph_init (ini "client" "60" "62" "1000" "2000" "5.0" "1.0") "."
  = Ok clamp_scenario /\
  Dec.eqb five_percent (mkDec 5 (-2)) = true /\
  Dec.eqb one_percent (mkDec 1 (-2)) = true /\
  exists r60 r61 r62 t60 t61 t62 s60 s61 s62 e60,
    compute_rows clamp_scenario = Ok [r60; r61; r62] /\
    projected_growth r60 = VDec (mkDec 5000000000000000000000 (-20)) /\
    charges r60 = VDec (mkDec 1000000000000000000000 (-20)) /\
    ending_fund_value r60 = VDec e60 /\
    Dec.eqb e60 (of_int (1000 + 50 - 2000 - 10)) = true /\
    Dec.eqb e60 (of_int (-960)) = true /\
    create_dataframe clamp_scenario
    = ([CsvFile (VStr "client") [t60; t61; t62]], Ok [s60; s61; s62]) /\
    ending_fund_value t60 = VDec (mkDec (-96000) (-2)) /\
    pension_fund_value t61 = VDec (mkDec (-96000) (-2)) /\
    ending_fund_value s60 = VInt 0 /\
    pension_fund_value s61 = VDec (mkDec (-96000) (-2)).
Proof.
  split; [reflexivity|]. split; [reflexivity|]. split; [reflexivity|].
  do 10 eexists.
  split; [vm_compute; reflexivity|].
  split; [reflexivity|]. split; [reflexivity|]. split; [reflexivity|].
  split; [reflexivity|]. split; [reflexivity|].
  split; [vm_compute; reflexivity|].
  repeat split; reflexivity.
Qed.

(** C5, as amended.  For every valid configuration, whose rates are
    decimals, and every row of the computed table: [projected_growth] and
    [charges] carry exactly twenty fractional digits and every fund value
    is a decimal of the 28-digit context; as long as the figures of each
    row so far add up to less than 10^8 in magnitude, the starting and
    ending values carry exactly twenty fractional digits too and the ending
    value is the exact sum; and the cells of the csv table are the
    round-half-up quantizations of these cells to exactly two fractional
    digits. *)
Theorem C5_carried_precision (self : AMR_Graph) (df : DataFrame) (income : value) :
  valid_config self = true ->
  compute_rows self = Ok df ->
  getattr self "annual_income" = Ok income ->
  Forall carried df /\
  (forall k r,
      nth_error df k = Some r ->
      (forall j r', (j <= k)%nat -> nth_error df j = Some r' -> small income r') ->
      full_precision income r) /\
  forall table,
    round_2dp df = Ok table ->
    Forall2 (fun r t => rounded r t /\ two_places t) df table.
Proof.
  intros Hv H Hinc. pose proof (compute_rows_carried _ _ Hv H) as Hc.
  split; [exact Hc|]. split.
  - apply (compute_rows_full_precision self df income Hv H Hinc).
  - intros table Ht. apply round_2dp_rounded in Ht.
    clear H. induction Ht as [|r t df table Hrt _ IH]; [constructor|].
    inversion Hc; subst. constructor; [|auto].
    split; [exact Hrt|]. eapply rounded_two_places; eassumption.
Qed.

Lemma C5_witness :
  valid_config clamp_scenario = true /\
  getattr clamp_scenario "annual_income" = Ok (VInt 2000) /\
  exists df,
    compute_rows clamp_scenario = Ok df /\
    Forall carried df /\
    (forall k r,
        nth_error df k = Some r ->
        (forall j r', (j <= k)%nat -> nth_error df j = Some r' ->
                      small (VInt 2000) r') ->
        full_precision (VInt 2000) r) /\
    forall table,
      round_2dp df = Ok table ->
      Forall2 (fun r t => rounded r t /\ two_places t) df table.
Proof.
  split; [reflexivity|]. split; [reflexivity|].
  eexists. split; [vm_compute; reflexivity|].
  apply (C5_carried_precision clamp_scenario); reflexivity.
Defined.

(** C5 as stated fails.  With a fund of 99,999,999, growth
    5.000000000000000001% and charges 1%, the configuration is valid and
    the one row is computed, but its ending value
    103999998.9600000000010000000 has nineteen fractional digits and is not
    the sum 103999998.96000000000099999999 of the cells it comes from: the
    context keeps 28 significant digits. *)
Lemma C5_counterexample :
  AMR_Graph_init
    (ini "client" "60" "60" "99,999,999" "0" "5.000000000000000001" "1.0") "."
  = Ok precision_scenario /\
  valid_config precision_scenario = true /\
  exists s g c e,
    compute_rows precision_scenario
    = Ok [mkRow (VInt 60) (VDec s) (VDec g) (VDec c) (VDec e)] /\
    dexp s = -20 /\ dexp g = -20 /\ dexp c = -20 /\
    e = mkDec 1039999989600000000010000000 (-19) /\
    -20 < dexp e /\
    coef s + coef g - 0 - coef c = 10399999896000000000099999999 /\
    Dec.eqb e (mkDec (coef s + coef g - 0 - coef c) (-20)) = false.
Proof.
  split; [reflexivity|]. split; [reflexivity|].
  do 4 eexists. split; [vm_compute; reflexivity|].
  repeat split; reflexivity.
Qed.

(** C6 fails on the code.  The file with the whole-number percentages 5
    and 1 passes validation and [__init__], where [5 / 100] is a float; the
    first row is computed from the int fund value, and the first turn of the
    loop multiplies the decimal ending value by the float and raises
    TypeError, so the script ends without writing a file.  A fund value of
    100,000,000 with decimal rates raises InvalidOperation in the first
    row, where it cannot be quantized to twenty places within 28 digits. *)
Theorem C6_valid_configurations_raise :
  let config := ini "client" "60" "62" "1000" "2000" "5" "1" in
  validate_config (Some config) = Ok config /\
  (exists obj row0,
      AMR_Graph_init config "." = Ok obj /\
      getattr obj "pct_growth_above_inflation"
      = Ok (VFloat (Flt.Ffin 7205759403792794 (-57))) /\
      first_row obj = Ok row0 /\
      next_row obj [row0] 0 = Raise TypeError /\
      compute_rows obj = Raise TypeError) /\
  script (Some config) "." = ([], Raise TypeError) /\
  script (Some (ini "client" "60" "62" "1000.0" "2000" "5" "1")) "."
  = ([], Raise TypeError) /\
  script (Some (ini "client" "60" "62" "100,000,000" "2000" "5.0" "1.0")) "."
  = ([], Raise InvalidOperation).
Proof.
  cbv zeta. split; [reflexivity|]. split.
  - do 2 eexists. split; [vm_compute; reflexivity|].
    split; [reflexivity|]. split; [vm_compute; reflexivity|].
    split; vm_compute; reflexivity.
  - repeat split; vm_compute; reflexivity.
Qed.

(** C7. The quantization of the export rounds half up.  The value 12.345
    becomes 12.35 and -12.345 becomes -12.35, where rounding to even would
    give 12.34; and in general the result is a nearest multiple of the
    quantum, the one of larger magnitude at a tie: with [p] the weight of
    the digits dropped, [2 |q| p - p <= 2 |d| < 2 |q| p + p]. *)
Theorem C7_round_half_up :
  (quantize_value (VDec (mkDec 12345 (-3))) 2 = Ok (VDec (mkDec 1235 (-2))) /\
   quantize_value (VDec (mkDec (-12345) (-3))) 2 = Ok (VDec (mkDec (-1235) (-2))) /\
   rescale ROUND_HALF_EVEN (mkDec 12345 (-3)) (-2) = mkDec 1234 (-2)) /\
  forall d q,
    dexp d <= -2 ->
    quantize_value (VDec d) 2 = Ok (VDec q) ->
    let p := 10 ^ (- 2 - dexp d) in
    dexp q = -2 /\
    2 * Z.abs (coef q) * p - p <= 2 * Z.abs (coef d)
                               < 2 * Z.abs (coef q) * p + p.
Proof.
  split; [repeat split; reflexivity|].
  intros d q Hd H. cbn [quantize_value] in H. step H q' Hq.
  inversion H; subst q'; clear H. cbv zeta.
  split; [apply (quantize_ok_shape _ _ _ Hq)|].
  unfold quantize in Hq. destruct (_ <=? _); [discriminate|].
  inversion Hq; subst q; clear Hq. unfold rescale. cbn [Z.opp].
  destruct (Z.leb_spec (-2) (dexp d)) as [Hle|Hlt]; cbn [coef].
  - assert (He : dexp d = -2) by lia. rewrite He.
    replace (-2 - -2) with 0 by reflexivity.
    rewrite Z.pow_0_r. lia.
  - apply (round_half_up_nearest (coef d) (-2 - dexp d)). lia.
Qed.

Lemma C7_witness :
  dexp (mkDec 12345 (-3)) <= -2 /\
  quantize_value (VDec (mkDec 12345 (-3))) 2 = Ok (VDec (mkDec 1235 (-2))) /\
  dexp (mkDec 1235 (-2)) = -2 /\
  2 * Z.abs 1235 * 10 ^ 1 - 10 ^ 1 <= 2 * Z.abs 12345
                                   < 2 * Z.abs 1235 * 10 ^ 1 + 10 ^ 1.
Proof.
  split; [simpl; lia|]. split; [reflexivity|].
  apply (proj2 C7_round_half_up (mkDec 12345 (-3)) (mkDec 1235 (-2)));
    [simpl; lia|reflexivity].
Defined.



(** C9 fails on the code.  A value with a decimal point that is not a
    number, such as the name J.Smith, is given to [Decimal], whose
    InvalidOperation is not a ValueError: the handler does not run, the
    string is not kept and the construction of the object fails.  A
    decimal of nine integer digits fails the same way in [quantize].
    Without a decimal point the failure of [int] is a ValueError and the
    string is kept. *)
Theorem C9_dotted_string_raises :
  convert "J.Smith" = Raise InvalidOperation /\
  AMR_Graph_init (ini "J.Smith" "60" "62" "1000" "2000" "5.0" "1.0") "."
  = Raise InvalidOperation /\
  script (Some (ini "J.Smith" "60" "62" "1000" "2000" "5.0" "1.0")) "."
  = ([], Raise InvalidOperation) /\
  convert "123456789.5" = Raise InvalidOperation /\
  convert "Smith" = Ok (VStr "Smith") /\
  convert "1,000,000" = Ok (VInt 1000000) /\
  convert "1,000.50" = Ok (VDec (mkDec 100050000000000000000000 (-20))).
Proof. repeat split; vm_compute; reflexivity. Qed.

(** C10. Every cell of the csv table is the two-place round-half-up
    quantization of the corresponding cell of the computed table, column by
    column; and for the valid configuration with fund 1, growth 0.5% and
    charges 0.1% the exported row 1.00, 0.01, 0.00, 1.00 does not satisfy
    the row identity: 1.00 + 0.01 - 0 - 0.00 is 1.01. *)
Theorem C10_export_rounds_cells_independently :
  (forall df table, round_2dp df = Ok table -> Forall2 rounded df table) /\
  valid_config rounding_scenario = true /\
  exists r t e recombined,
    compute_rows rounding_scenario = Ok [r] /\
    ending_fund_value r = VDec (mkDec 100400000000000000000 (-20)) /\
    round_2dp [r] = Ok [t] /\
    t = mkRow (VInt 60) (VDec (mkDec 100 (-2))) (VDec (mkDec 1 (-2)))
              (VDec (mkDec 0 (-2))) (VDec e) /\
    e = mkDec 100 (-2) /\
    getattr rounding_scenario "annual_income" = Ok (VInt 0) /\
    ending_of (pension_fund_value t) (projected_growth t) (VInt 0) (charges t)
    = Ok (VDec recombined) /\
    recombined = mkDec 101 (-2) /\
    Dec.eqb recombined e = false.
Proof.
  split; [exact round_2dp_rounded|]. split; [reflexivity|].
  do 4 eexists. split; [vm_compute; reflexivity|].
  split; [reflexivity|]. split; [vm_compute; reflexivity|].
  repeat split; reflexivity.
Qed.

Lemma C10_witness :
  exists df table,
    round_2dp df = Ok table /\ Forall2 rounded df table.
Proof.
  exists [mkRow (VInt 60) (VDec (mkDec 1004 (-3))) (VDec (mkDec 5 (-3)))
                (VDec (mkDec 1 (-3))) (VDec (mkDec 1004 (-3)))].
  eexists. split; [vm_compute; reflexivity|].
  apply (proj1 C10_export_rounds_cells_independently). vm_compute; reflexivity.
Defined.

(** * Further properties of the code

    ** Validation *)





Lemma check_keys_first (config : ConfigParser) (sec k : string)
      (before after : list string) :
  (forall k', In k' before -> has_option config sec k' = true) ->
  has_option config sec k = false ->
  check_keys config sec (before ++ k :: after)
  = Raise (ValueError (k ++ " missing from " ++ sec)).
Proof.
  intros Hb Hk. induction before as [|b before IH]; cbn [app check_keys].
  - rewrite Hk. reflexivity.
  - rewrite (Hb b (or_introl eq_refl)). cbn [negb].
    apply IH. intros k' Hin. apply Hb. right; exact Hin.
Qed.

(** X2. The keys are checked in the order of the list: when the keys
    before [k] are present and [k] is not, the error names [k], whatever
    is missing after it. *)
Theorem validate_config_names_first_missing
        (config : ConfigParser) (k : string) (before after : list string) :
  required_keys = before ++ k :: after ->
  has_section config "Values" = true ->
  (forall k', In k' before -> has_option config "Values" k' = true) ->
  has_option config "Values" k = false ->
  validate_config (Some config)
  = Raise (ValueError (k ++ " missing from Values")).
Proof.
  intros Hreq Hsec Hb Hk. unfold validate_config. cbn [check_sections].
  rewrite Hsec, Hreq. cbn [negb].
  rewrite (check_keys_first config "Values" k before after Hb Hk). reflexivity.
Qed.

Lemma validate_config_names_first_missing_witness :
  required_keys
  = ["name"; "age"; "maximum_age"; "pension_fund_value"]%string
    ++ "annual_income"%string
       :: ["pct_growth_above_inflation"; "pct_charges_above_inflation"]%string /\
  has_section ini_without_income "Values" = true /\
  (forall k',
      In k' ["name"; "age"; "maximum_age"; "pension_fund_value"]%string ->
      has_option ini_without_income "Values" k' = true) /\
  has_option ini_without_income "Values" "annual_income" = false /\
  validate_config (Some ini_without_income)
  = Raise (ValueError ("annual_income" ++ " missing from Values")).
Proof.
  assert (Hb : forall k',
             In k' ["name"; "age"; "maximum_age"; "pension_fund_value"]%string ->
             has_option ini_without_income "Values" k' = true).
  { intros k' [<-|[<-|[<-|[<-|[]]]]]; reflexivity. }
  split; [reflexivity|]. split; [reflexivity|]. split; [exact Hb|].
  split; [reflexivity|].
  apply (validate_config_names_first_missing ini_without_income "annual_income"
           ["name"; "age"; "maximum_age"; "pension_fund_value"]%string
           ["pct_growth_above_inflation"; "pct_charges_above_inflation"]%string);
    [reflexivity|reflexivity|exact Hb|reflexivity].
Defined.

(** ** Attributes *)

Lemma lookup_setattr_same (self : AMR_Graph) (k : string) (v : value) :
  lookup k (setattr self k v) = Some v.
Proof.
  induction self as [|[k' w] rest IH]; cbn [setattr lookup].
  - rewrite String.eqb_refl. reflexivity.
  - destruct (String.eqb k k') eqn:He; cbn [lookup]; rewrite He; auto.
Qed.

Lemma lookup_setattr_other (self : AMR_Graph) (k k' : string) (v : value) :
  k' <> k -> lookup k' (setattr self k v) = lookup k' self.
Proof.
  intros Hne. induction self as [|[k0 w] rest IH]; cbn [setattr lookup].
  - apply String.eqb_neq in Hne. rewrite Hne. reflexivity.
  - destruct (String.eqb k k0) eqn:He; cbn [lookup].
    + apply String.eqb_eq in He. subst k0.
      apply String.eqb_neq in Hne. rewrite Hne. reflexivity.
    + rewrite IH. reflexivity.
Qed.

Lemma getattr_setattr_same (self : AMR_Graph) (k : string) (v : value) :
  getattr (setattr self k v) k = Ok v.
Proof. unfold getattr. rewrite lookup_setattr_same. reflexivity. Qed.

Lemma getattr_setattr_other (self : AMR_Graph) (k k' : string) (v : value) :
  k' <> k -> getattr (setattr self k v) k' = getattr self k'.
Proof. intros H. unfold getattr. rewrite lookup_setattr_other by exact H. reflexivity. Qed.

(** ** Conversion of a raw value *)

Lemma remove_char_absent (c : ascii) (s : string) :
  contains_char c (remove_char c s) = false.
Proof.
  induction s as [|a s IH]; cbn [remove_char contains_char]; [reflexivity|].
  destruct (Ascii.eqb a c) eqn:He; cbn [contains_char]; [exact IH|].
  rewrite He, IH. reflexivity.
Qed.

Lemma remove_char_fixed (c : ascii) (s : string) :
  contains_char c s = false -> remove_char c s = s.
Proof.
  induction s as [|a s IH]; cbn [remove_char contains_char]; [reflexivity|].
  destruct (Ascii.eqb a c); cbn [orb]; [discriminate|].
  intros H. rewrite IH by exact H. reflexivity.
Qed.

Lemma remove_char_idem (c : ascii) (s : string) :
  remove_char c (remove_char c s) = remove_char c s.
Proof. apply remove_char_fixed, remove_char_absent. Qed.

Lemma convert_cases (raw : string) :
  let s := remove_char "," raw in
  match convert raw with
  | Ok (VInt n) => contains_char "." s = false /\ parse_int s = Some n
  | Ok (VDec d) =>
      contains_char "." s = true /\ dexp d = -20 /\ Z.abs (coef d) < 10 ^ prec
  | Ok (VStr t) =>
      t = s /\ contains_char "." s = false /\ parse_int s = None
  | Ok (VFloat _) => False
  | Raise e => e = InvalidOperation /\ contains_char "." s = true
  end.
Proof.
  cbv zeta. unfold convert.
  destruct (contains_char "." (remove_char "," raw)) eqn:Hdot.
  - unfold to_decimal_round, quantize_value.
    destruct (parse_decimal (remove_char "," raw)) as [d|];
      cbn [bind except_ValueError]; [|auto].
    destruct (quantize d 20) as [q|e] eqn:Hq; cbn [bind except_ValueError].
    + apply quantize_ok_shape in Hq. destruct Hq as [He Hb]. auto.
    + unfold quantize in Hq. destruct (_ <=? _); inversion Hq.
      cbn [except_ValueError]. auto.
  - unfold py_int_str. destruct (parse_int (remove_char "," raw));
      cbn [except_ValueError]; auto.
Qed.

(** ** Quantization *)

(** X3. The loop of [__init__] leaves one of four outcomes for a raw
    value, with its commas removed: an int when there is no decimal point
    and [int] accepts it; the string itself when there is no decimal point
    and [int] rejects it; a decimal of exactly twenty places and at most 28
    digits when there is a decimal point; and otherwise InvalidOperation,
    which only a value with a decimal point can raise.  It never leaves a
    float. *)
Theorem convert_outcomes (raw : string) :
  let s := remove_char "," raw in
  match convert raw with
  | Ok (VInt n) => contains_char "." s = false /\ parse_int s = Some n
  | Ok (VDec d) =>
      contains_char "." s = true /\ dexp d = -20 /\ Z.abs (coef d) < 10 ^ prec
  | Ok (VStr t) =>
      t = s /\ contains_char "." s = false /\ parse_int s = None
  | Ok (VFloat _) => False
  | Raise e => e = InvalidOperation /\ contains_char "." s = true
  end.
Proof. apply convert_cases. Qed.

Lemma quantize_fixed (q : Decimal) (p : Z) :
  dexp q = - p -> Z.abs (coef q) < 10 ^ prec -> quantize q p = Ok q.
Proof.
  destruct q as [c e]; cbn [coef dexp]; intros -> Hb.
  unfold quantize, rescale; cbn [coef dexp].
  rewrite Z.leb_refl, Z.sub_diag, Z.pow_0_r, Z.mul_1_r. cbn [coef].
  destruct (Z.leb_spec (10 ^ prec) (Z.abs c)); [lia|reflexivity].
Qed.

(** X4. Rounding again to the same number of places changes nothing:
    whatever [to_decimal_round] returns is returned unchanged when it is
    given back. *)
Theorem to_decimal_round_idempotent (v w : value) (p : Z) :
  to_decimal_round v p = Ok w -> to_decimal_round w p = Ok w.
Proof.
  intros H. apply to_decimal_round_VDec in H.
  destruct v as [n|[m e|s|]|d|s];
    try (destruct H as (q & -> & He & Hb); unfold to_decimal_round;
         cbn [quantize_value]; rewrite quantize_fixed by assumption;
         reflexivity).
  subst w. reflexivity.
Qed.

Lemma to_decimal_round_idempotent_witness :
  to_decimal_round (VDec (mkDec 12345 (-3))) 2 = Ok (VDec (mkDec 1235 (-2))) /\
  to_decimal_round (VDec (mkDec 1235 (-2))) 2 = Ok (VDec (mkDec 1235 (-2))).
Proof.
  split; [reflexivity|].
  apply (to_decimal_round_idempotent (VDec (mkDec 12345 (-3)))). reflexivity.
Defined.

Lemma round_digits_opp (r : rounding) (c k : Z) :
  round_digits r (- c) k = - round_digits r c k.
Proof.
  unfold round_digits. rewrite Z.abs_opp, Z.sgn_opp. lia.
Qed.

Lemma rescale_neg (r : rounding) (d : Decimal) (e : Z) :
  rescale r (neg d) e = neg (rescale r d e).
Proof.
  unfold rescale, neg; cbn [coef dexp].
  destruct (e <=? dexp d); cbn [coef dexp]; f_equal.
  - lia.
  - apply round_digits_opp.
Qed.

(** X5. Round-half-up is symmetric about zero: rounding the negation of
    a decimal gives the negation of what rounding the decimal gives, and
    fails when that fails. *)
Theorem to_decimal_round_symmetric (d : Decimal) (p : Z) :
  to_decimal_round (VDec (neg d)) p
  = (w <- quantize d p ;; Ok (VDec (neg w))).
Proof.
  unfold to_decimal_round; cbn [quantize_value]. unfold quantize.
  rewrite rescale_neg. cbn [neg coef]. rewrite Z.abs_opp.
  destruct (_ <=? _); reflexivity.
Qed.

Lemma round_int_20 (n : Z) :
  to_decimal_round (VInt n) 20
  = if Z.abs n <? 10 ^ 8
    then Ok (VDec (mkDec (n * 10 ^ 20) (-20)))
    else Raise InvalidOperation.
Proof.
  unfold to_decimal_round; cbn [quantize_value].
  unfold quantize, rescale, of_int; cbn [coef dexp].
  change (- (20) <=? 0) with true. cbv iota. cbn [coef].
  change (0 - - (20)) with 20. change (- (20)) with (-20).
  rewrite Z.abs_mul. change (Z.abs (10 ^ 20)) with (10 ^ 20).
  change (10 ^ prec) with (10 ^ 8 * 10 ^ 20).
  assert (H20 : 0 < 10 ^ 20) by reflexivity.
  destruct (Z.leb_spec (10 ^ 8 * 10 ^ 20) (Z.abs n * 10 ^ 20)) as [H|H];
    destruct (Z.ltb_spec (Z.abs n) (10 ^ 8)) as [H'|H'];
    try reflexivity; nia.
Qed.

(** X6. At twenty places an int is converted exactly when its magnitude is
    below 10^8, to the same number with twenty zeros; from 10^8 on the
    result would need more than 28 digits and InvalidOperation is
    raised. *)
Theorem to_decimal_round_int_bound (n : Z) :
  to_decimal_round (VInt n) 20
  = if Z.abs n <? 10 ^ 8
    then Ok (VDec (mkDec (n * 10 ^ 20) (-20)))
    else Raise InvalidOperation.
Proof. apply round_int_20. Qed.

(** Rounding half up keeps the order of the coefficients. *)
Lemma round_half_up_nonneg (c k : Z) :
  0 <= k -> 0 <= c -> 0 <= round_digits ROUND_HALF_UP c k.
Proof.
  intros Hk Hc. unfold round_digits. pose proof (pow10_pos k Hk).
  assert (0 <= Z.abs c / 10 ^ k) by (apply Z.div_pos; lia).
  destruct (_ <=? _); nia.
Qed.

Lemma round_half_up_mono_nonneg (a b k : Z) :
  0 <= k -> 0 <= a <= b ->
  round_digits ROUND_HALF_UP a k <= round_digits ROUND_HALF_UP b k.
Proof.
  intros Hk [Ha Hab]. unfold round_digits. pose proof (pow10_pos k Hk) as Hp.
  rewrite !Z.abs_eq by lia.
  pose proof (Z.div_mod a (10 ^ k) ltac:(lia)) as Hda.
  pose proof (Z.div_mod b (10 ^ k) ltac:(lia)) as Hdb.
  pose proof (Z.mod_pos_bound a (10 ^ k) Hp) as Hma.
  pose proof (Z.mod_pos_bound b (10 ^ k) Hp) as Hmb.
  assert (Hq : a / 10 ^ k <= b / 10 ^ k) by (apply Z.div_le_mono; lia).
  assert (Hqa : 0 <= a / 10 ^ k) by (apply Z.div_pos; lia).
  destruct (Z.eq_dec a 0) as [->|Hna].
  - rewrite Z.div_0_l, Z.mod_0_l by lia. cbn [Z.sgn].
    destruct (Z.leb_spec (10 ^ k) (2 * 0)); [lia|].
    rewrite Z.mul_0_l. destruct (_ <=? _); nia.
  - rewrite (Z.sgn_pos a), (Z.sgn_pos b) by lia. rewrite !Z.mul_1_l.
    destruct (Z.leb_spec (10 ^ k) (2 * (a mod 10 ^ k)));
      destruct (Z.leb_spec (10 ^ k) (2 * (b mod 10 ^ k))); try lia.
    destruct (Z.eq_dec (a / 10 ^ k) (b / 10 ^ k)) as [He|Hn]; [|lia].
    rewrite He in Hda. lia.
Qed.

Lemma round_half_up_mono (a b k : Z) :
  0 <= k -> a <= b ->
  round_digits ROUND_HALF_UP a k <= round_digits ROUND_HALF_UP b k.
Proof.
  intros Hk Hab.
  destruct (Z.le_gt_cases 0 a) as [Ha|Ha].
  - apply round_half_up_mono_nonneg; lia.
  - destruct (Z.le_gt_cases 0 b) as [Hb|Hb].
    + pose proof (round_half_up_nonneg b k Hk Hb).
      pose proof (round_half_up_nonneg (- a) k Hk ltac:(lia)) as Hn.
      rewrite round_digits_opp in Hn. lia.
    + pose proof (round_half_up_mono_nonneg (- b) (- a) k Hk ltac:(lia)) as Hm.
      rewrite !round_digits_opp in Hm. lia.
Qed.

(** X7. Rounding keeps the order: of two decimals written with the same
    exponent, the one with the smaller coefficient never rounds to the
    larger result. *)
Theorem to_decimal_round_monotone (a b qa qb : Decimal) (p : Z) :
  dexp a = dexp b -> coef a <= coef b ->
  to_decimal_round (VDec a) p = Ok (VDec qa) ->
  to_decimal_round (VDec b) p = Ok (VDec qb) ->
  dexp qa = dexp qb /\ coef qa <= coef qb.
Proof.
  intros He Hab Ha Hb. unfold to_decimal_round in *.
  cbn [quantize_value] in *.
  destruct (quantize a p) as [xa|] eqn:Hqa; cbn [bind] in Ha; [|discriminate].
  destruct (quantize b p) as [xb|] eqn:Hqb; cbn [bind] in Hb; [|discriminate].
  inversion Ha; inversion Hb; subst xa xb.
  unfold quantize in Hqa, Hqb.
  destruct (10 ^ prec <=? Z.abs (coef (rescale ROUND_HALF_UP a (- p))));
    [discriminate|].
  destruct (10 ^ prec <=? Z.abs (coef (rescale ROUND_HALF_UP b (- p))));
    [discriminate|].
  inversion Hqa; inversion Hqb. unfold rescale. rewrite <- He.
  destruct (Z.leb_spec (- p) (dexp a)) as [Hle|Hgt]; cbn [coef dexp].
  - split; [reflexivity|]. pose proof (pow10_pos (dexp a - - p) ltac:(lia)). nia.
  - split; [reflexivity|]. apply round_half_up_mono; lia.
Qed.

Lemma to_decimal_round_monotone_witness :
  dexp (mkDec 12344 (-3)) = dexp (mkDec 12345 (-3)) /\
  coef (mkDec 12344 (-3)) <= coef (mkDec 12345 (-3)) /\
  to_decimal_round (VDec (mkDec 12344 (-3))) 2 = Ok (VDec (mkDec 1234 (-2))) /\
  to_decimal_round (VDec (mkDec 12345 (-3))) 2 = Ok (VDec (mkDec 1235 (-2))) /\
  dexp (mkDec 1234 (-2)) = dexp (mkDec 1235 (-2)) /\
  coef (mkDec 1234 (-2)) <= coef (mkDec 1235 (-2)).
Proof.
  split; [reflexivity|]. split; [simpl; lia|]. split; [reflexivity|].
  split; [reflexivity|].
  apply (to_decimal_round_monotone (mkDec 12344 (-3)) (mkDec 12345 (-3))
           (mkDec 1234 (-2)) (mkDec 1235 (-2)) 2);
    [reflexivity|simpl; lia|reflexivity|reflexivity].
Defined.

(** ** The percentage as a fraction *)

(** X8. A percentage written with a decimal point is divided by 100
    exactly and without error: the rate is a decimal of 20 to 22 places
    whose hundredfold is the percentage that was converted. *)
Theorem decimal_percentage_exact (raw : string) (d : Decimal) :
  convert raw = Ok (VDec d) ->
  exists r,
    py_div100 (VDec d) = Ok (VDec r) /\
    -22 <= dexp r <= -20 /\
    coef r * 10 ^ (dexp r + 22) = coef d.
Proof.
  intros H. pose proof (convert_cases raw) as Ho. cbv zeta in Ho.
  rewrite H in Ho. destruct Ho as (_ & He & Hb).
  assert (Hr : Etiny <= -22 /\ -20 <= Etop) by (unfold Etiny, Etop, Emin, Emax, prec; lia).
  cbn [py_div100]. unfold div100.
  pose proof (Z.div_mod (coef d) 100 ltac:(lia)) as H100.
  pose proof (Z.div_mod (coef d) 10 ltac:(lia)) as H10.
  destruct (Z.eqb_spec (coef d mod 100) 0) as [Hm|Hm].
  - rewrite ctx_fix_exact; cbn [coef dexp bind].
    + eexists. split; [reflexivity|]. cbn [coef dexp]. rewrite He.
      split; [lia|]. change (10 ^ (-20 + 22)) with 100. lia.
    + assert (Z.abs (coef d / 100) <= Z.abs (coef d)); [|lia].
      rewrite Hm in H100. lia.
    + rewrite He. lia.
  - destruct (Z.eqb_spec (coef d mod 10) 0) as [Hm'|Hm'].
    + rewrite ctx_fix_exact; cbn [coef dexp bind].
      * eexists. split; [reflexivity|]. cbn [coef dexp]. rewrite He.
        split; [lia|]. change (10 ^ (-20 - 1 + 22)) with 10. lia.
      * rewrite Hm' in H10. lia.
      * rewrite He. lia.
    + rewrite ctx_fix_exact; cbn [coef dexp bind].
      * eexists. split; [reflexivity|]. cbn [coef dexp]. rewrite He.
        split; [lia|]. change (10 ^ (-20 - 2 + 22)) with 1. lia.
      * exact Hb.
      * rewrite He. lia.
Qed.

Lemma decimal_percentage_exact_witness :
  convert "5.0" = Ok (VDec (mkDec 500000000000000000000 (-20))) /\
  exists r,
    py_div100 (VDec (mkDec 500000000000000000000 (-20))) = Ok (VDec r) /\
    -22 <= dexp r <= -20 /\
    coef r * 10 ^ (dexp r + 22) = coef (mkDec 500000000000000000000 (-20)).
Proof.
  split; [reflexivity|].
  apply (decimal_percentage_exact "5.0"). reflexivity.
Defined.

(** ** Construction of the object *)




Lemma mem_setattr (self : AMR_Graph) (k k' : string) (v : value) :
  mem k' (setattr self k v) = (String.eqb k' k || mem k' self).
Proof.
  unfold mem. destruct (String.eqb_spec k' k) as [->|Hne]; cbn [orb].
  - rewrite lookup_setattr_same. reflexivity.
  - rewrite lookup_setattr_other by exact Hne. reflexivity.
Qed.

Lemma mem_cons {A : Type} (k k0 : string) (a : A) (l : list (string * A)) :
  mem k ((k0, a) :: l) = (String.eqb k k0 || mem k l).
Proof. unfold mem. cbn [lookup]. destruct (String.eqb k k0); reflexivity. Qed.

Lemma set_values_mem (its : section) :
  forall self self' k,
    set_values self its = Ok self' ->
    mem k self' = (mem k self || mem k its).
Proof.
  induction its as [|[k0 raw] rest IH]; intros self self' k H;
    cbn [set_values] in H.
  - inversion H; subst. rewrite orb_false_r. reflexivity.
  - destruct (convert raw) as [v|] eqn:Hc; cbn [bind] in H; [|discriminate].
    rewrite (IH _ _ k H), mem_setattr, mem_cons.
    destruct (String.eqb k k0), (mem k self), (mem k rest); reflexivity.
Qed.

Lemma lookup_app {A : Type} (k : string) (l l' : list (string * A)) :
  lookup k (l ++ l') = match lookup k l with Some a => Some a | None => lookup k l' end.
Proof.
  induction l as [|[k0 a] l IH]; cbn [app lookup]; [reflexivity|].
  destruct (String.eqb k k0); auto.
Qed.

Lemma lookup_filter_absent (k : string) (sec dflt : section) :
  lookup k sec = None ->
  lookup k (filter (fun kv => negb (mem (fst kv) sec)) dflt) = lookup k dflt.
Proof.
  intros Hk. induction dflt as [|[k0 a] dflt IH]; cbn [filter lookup fst];
    [reflexivity|].
  destruct (String.eqb_spec k k0) as [<-|Hne].
  - unfold mem. rewrite Hk. cbn [negb lookup]. rewrite String.eqb_refl.
    reflexivity.
  - destruct (negb (mem k0 sec)); cbn [lookup]; [|exact IH].
    apply String.eqb_neq in Hne. rewrite Hne. exact IH.
Qed.

(** The keys that validation sees are the keys that [items] lists. *)
Lemma has_option_items (config : ConfigParser) (name k : string) (its : section) :
  items config name = Ok its -> has_option config name k = mem k its.
Proof.
  unfold items, has_option. destruct (lookup name (sections config)) as [sec|];
    [|discriminate].
  intros [= <-]. unfold mem at 3. rewrite lookup_app. unfold mem at 1.
  destruct (lookup k sec) eqn:Hk; cbn [orb]; [reflexivity|].
  rewrite lookup_filter_absent by exact Hk. reflexivity.
Qed.


Lemma convert_stored (raw : string) (v : value) :
  convert raw = Ok v -> stored v.
Proof.
  intros H. pose proof (convert_cases raw) as Ho. cbv zeta in Ho.
  rewrite H in Ho. destruct v as [| |d|]; cbn [stored]; auto. apply Ho.
Qed.

Lemma lookup_setattr_inv (self : AMR_Graph) (k k' : string) (v w : value) :
  lookup k' (setattr self k v) = Some w ->
  (k' = k /\ w = v) \/ (k' <> k /\ lookup k' self = Some w).
Proof.
  destruct (String.eqb_spec k' k) as [->|Hne].
  - rewrite lookup_setattr_same. intros [= <-]. auto.
  - rewrite lookup_setattr_other by exact Hne. auto.
Qed.

Lemma set_values_stored (its : section) :
  forall self self',
    (forall k v, lookup k self = Some v -> stored v) ->
    set_values self its = Ok self' ->
    forall k v, lookup k self' = Some v -> stored v.
Proof.
  induction its as [|[k0 raw] rest IH]; intros self self' Hs H;
    cbn [set_values] in H.
  - inversion H; subst. exact Hs.
  - destruct (convert raw) as [v0|] eqn:Hc; cbn [bind] in H; [|discriminate].
    eapply IH; [|exact H]. intros k v Hk.
    apply lookup_setattr_inv in Hk. destruct Hk as [[_ ->]|[_ Hk]].
    + eapply convert_stored; exact Hc.
    + eapply Hs; exact Hk.
Qed.

Lemma py_div100_stored (v : value) :
  stored v ->
  match py_div100 v with
  | Ok (VFloat (Flt.Ffin _ _)) => exists n, v = VInt n
  | Ok (VDec _) => exists d, v = VDec d
  | Ok _ => False
  | Raise e => e = TypeError \/ e = OverflowError
  end.
Proof.
  destruct v as [n| |d|s]; cbn [stored py_div100]; intros Hs.
  - unfold Flt.int_truediv, Flt.round_binary64.
    destruct (n =? 0); cbn [bind]; [eauto|].
    destruct (Flt.rne_scaled _ _ _ =? 2 ^ 53);
      destruct (971 <? _); cbn [bind]; eauto.
  - destruct Hs.
  - destruct Hs as [He Hb]. unfold div100.
    assert (Hr : Etiny <= -22 /\ -20 <= Etop)
      by (unfold Etiny, Etop, Emin, Emax, prec; lia).
    pose proof (Z.div_mod (coef d) 100 ltac:(lia)) as H100.
    pose proof (Z.div_mod (coef d) 10 ltac:(lia)) as H10.
    destruct (Z.eqb_spec (coef d mod 100) 0) as [Hm|Hm];
      [|destruct (Z.eqb_spec (coef d mod 10) 0) as [Hm'|Hm']];
      (rewrite ctx_fix_exact; cbn [coef dexp bind]; [eauto| |rewrite He; lia]).
    + rewrite Hm in H100. lia.
    + rewrite Hm' in H10. lia.
    + exact Hb.
  - auto.
Qed.



Lemma set_values_absent (its : section) :
  forall self self' k,
    set_values self its = Ok self' -> lookup k its = None ->
    lookup k self' = lookup k self.
Proof.
  induction its as [|[k0 raw] rest IH]; intros self self' k H Hk;
    cbn [set_values] in H.
  - inversion H; reflexivity.
  - destruct (convert raw) as [v|] eqn:Hc; cbn [bind] in H; [|discriminate].
    cbn [lookup] in Hk. destruct (String.eqb_spec k k0) as [->|Hne];
      [discriminate|].
    rewrite (IH _ _ k H Hk). apply lookup_setattr_other. exact Hne.
Qed.

Lemma set_values_lookup (its : section) :
  forall self self' k raw,
    unique_keys its = true ->
    set_values self its = Ok self' ->
    lookup k its = Some raw ->
    exists v, convert raw = Ok v /\ lookup k self' = Some v.
Proof.
  induction its as [|[k0 raw0] rest IH]; intros self self' k raw Hu H Hk;
    cbn [set_values] in H; [discriminate|].
  destruct (convert raw0) as [v0|] eqn:Hc; cbn [bind] in H; [|discriminate].
  cbn [unique_keys] in Hu. apply andb_prop in Hu. destruct Hu as [Hnot Hu].
  cbn [lookup] in Hk. destruct (String.eqb_spec k k0) as [->|Hne].
  - inversion Hk; subst raw0. exists v0. split; [exact Hc|].
    assert (Hnone : lookup k0 rest = None).
    { unfold mem in Hnot. destruct (lookup k0 rest); [discriminate|reflexivity]. }
    rewrite (set_values_absent _ _ _ k0 H Hnone).
    apply lookup_setattr_same.
  - eapply IH; eassumption.
Qed.

(** X10. When no key is listed twice, [__init__] leaves under each key of
    the section the conversion of its value, and for the two percentage
    keys that conversion divided by 100. *)
Theorem init_attributes (config : ConfigParser) (script_dir : string)
        (self : AMR_Graph) (its : section) (k raw : string) :
  AMR_Graph_init config script_dir = Ok self ->
  items config "Values" = Ok its ->
  unique_keys its = true ->
  lookup k its = Some raw ->
  exists v,
    convert raw = Ok v /\
    (if is_percentage k then py_div100 v else Ok v) = getattr self k.
Proof.
  intros H Hits Hnd Hk. unfold AMR_Graph_init in H. rewrite Hits in H.
  cbn [bind] in H.
  destruct (set_values _ its) as [s0|] eqn:Hset; cbn [bind] in H; [|discriminate].
  destruct (set_values_lookup _ _ _ _ _ Hnd Hset Hk) as (v & Hv & Hl).
  exists v. split; [exact Hv|].
  destruct (getattr s0 "pct_growth_above_inflation") as [g|] eqn:Hg;
    cbn [bind] in H; [|discriminate].
  destruct (py_div100 g) as [g'|] eqn:Hg'; cbn [bind] in H; [|discriminate].
  destruct (getattr (setattr s0 "pct_growth_above_inflation" g')
                    "pct_charges_above_inflation") as [c|] eqn:Hc;
    cbn [bind] in H; [|discriminate].
  destruct (py_div100 c) as [c'|] eqn:Hc'; cbn [bind] in H; [|discriminate].
  inversion H; subst self; clear H.
  rewrite getattr_setattr_other in Hc by discriminate.
  unfold is_percentage.
  destruct (String.eqb_spec k "pct_charges_above_inflation") as [->|Hnc].
  - rewrite orb_true_r, getattr_setattr_same.
    unfold getattr in Hc. rewrite Hl in Hc. inversion Hc; subst c. exact Hc'.
  - rewrite orb_false_r, getattr_setattr_other by exact Hnc.
    destruct (String.eqb_spec k "pct_growth_above_inflation") as [->|Hng].
    + rewrite getattr_setattr_same.
      unfold getattr in Hg. rewrite Hl in Hg. inversion Hg; subst g. exact Hg'.
    + rewrite getattr_setattr_other by exact Hng.
      unfold getattr. rewrite Hl. reflexivity.
Qed.

Lemma init_attributes_witness :
  AMR_Graph_init (ini "client" "60" "62" "1000" "2000" "5.0" "1.0") "."
  = Ok clamp_scenario /\
  (exists its,
      items (ini "client" "60" "62" "1000" "2000" "5.0" "1.0") "Values" = Ok its /\
      unique_keys its = true /\
      lookup "pct_growth_above_inflation" its = Some "5.0"%string) /\
  exists v,
    convert "5.0" = Ok v /\
    (if is_percentage "pct_growth_above_inflation" then py_div100 v else Ok v)
    = getattr clamp_scenario "pct_growth_above_inflation".
Proof.
  split; [reflexivity|].
  split; [eexists; split; [reflexivity|split; reflexivity]|].
  eapply (init_attributes (ini "client" "60" "62" "1000" "2000" "5.0" "1.0") ".");
    [reflexivity|reflexivity|reflexivity|reflexivity].
Defined.

(** ** Keys that hide a method *)

Lemma init_mem (config : ConfigParser) (script_dir : string) (self : AMR_Graph)
      (k : string) :
  AMR_Graph_init config script_dir = Ok self ->
  has_option config "Values" k = true -> mem k self = true.
Proof.
  intros H Hk. unfold AMR_Graph_init in H.
  destruct (items config "Values") as [its|] eqn:Hits; cbn [bind] in H;
    [|discriminate].
  destruct (set_values _ its) as [s0|] eqn:Hset; cbn [bind] in H; [|discriminate].
  destruct (getattr s0 _) as [g|]; cbn [bind] in H; [|discriminate].
  destruct (py_div100 g) as [g'|]; cbn [bind] in H; [|discriminate].
  destruct (getattr _ _) as [c|]; cbn [bind] in H; [|discriminate].
  destruct (py_div100 c) as [c'|]; cbn [bind] in H; [|discriminate].
  inversion H; subst self. rewrite !mem_setattr.
  rewrite (set_values_mem _ _ _ k Hset).
  rewrite <- (has_option_items _ _ k _ Hits), Hk.
  rewrite !orb_true_r. reflexivity.
Qed.

(** X11. Every key of the section becomes an attribute of the object, so a
    key named [main] or [create_dataframe] hides the method of that name:
    the file passes validation and construction, and the script then stops
    with TypeError before anything is computed or written. *)
Theorem method_key_stops_script (config : ConfigParser) (script_dir : string)
        (self : AMR_Graph) (k : string) :
  validate_config (Some config) = Ok config ->
  AMR_Graph_init config script_dir = Ok self ->
  k = "main"%string \/ k = "create_dataframe"%string ->
  has_option config "Values" k = true ->
  script (Some config) script_dir = ([], Raise TypeError).
Proof.
  intros Hv Hi Hk Hopt. unfold script. rewrite Hv, Hi.
  pose proof (init_mem _ _ _ _ Hi Hopt) as Hm.
  unfold method_hidden. destruct (mem "main" self) eqn:Hmain; [reflexivity|].
  destruct Hk as [->| ->]; [congruence|].
  unfold AMR_Graph_main, method_hidden. rewrite Hm. reflexivity.
Qed.

Lemma method_key_stops_script_witness :
  validate_config (Some ini_with_main_key) = Ok ini_with_main_key /\
  (exists self, AMR_Graph_init ini_with_main_key "." = Ok self) /\
  ("main"%string = "main"%string \/ "main"%string = "create_dataframe"%string) /\
  has_option ini_with_main_key "Values" "main" = true /\
  script (Some ini_with_main_key) "." = ([], Raise TypeError).
Proof.
  split; [reflexivity|].
  split; [eexists; vm_compute; reflexivity|].
  split; [left; reflexivity|]. split; [reflexivity|].
  eapply (method_key_stops_script ini_with_main_key "." _ "main");
    [reflexivity|vm_compute; reflexivity|left; reflexivity|reflexivity].
Defined.

(** ** The table: edge cases *)



(** X13. For a valid configuration the first row starts from the fund
    value itself, written with twenty places. *)
Theorem first_row_starts_from_fund (self : AMR_Graph) (df : DataFrame) (fund : value) :
  valid_config self = true ->
  getattr self "pension_fund_value" = Ok fund ->
  compute_rows self = Ok df ->
  exists row0 rest,
    df = row0 :: rest /\
    pension_fund_value row0 = VDec (mkDec (amount_coef fund) (-20)).
Proof.
  intros Hv Hf H. apply compute_rows_inv in H.
  destruct H as (row0 & n & H0 & H). apply add_rows_prefix in H.
  destruct H as [rest ->]. exists row0, rest. split; [reflexivity|].
  apply first_row_start in H0. destruct H0 as (f & Hf' & Hs).
  rewrite Hf in Hf'. inversion Hf'; subst f.
  apply valid_config_inv in Hv.
  destruct Hv as (a & m & f & i & g & c & _ & _ & Hf2 & _ & _ & _ & _ & Hfa & _).
  rewrite Hf in Hf2. inversion Hf2; subst f.
  destruct fund as [n0| |d|]; try discriminate; cbn [amount_coef].
  - rewrite round_int_20 in Hs.
    destruct (Z.abs n0 <? 10 ^ 8); inversion Hs; reflexivity.
  - cbn [is_amount] in Hfa. apply andb_prop in Hfa. destruct Hfa as [_ He].
    apply Z.eqb_eq in He. unfold to_decimal_round in Hs.
    cbn [quantize_value] in Hs. step Hs q Hq.
    apply quantize_20_fixed in Hq; [|exact He]. inversion Hs; subst.
    destruct d as [cd ed]; cbn [coef dexp] in *. subst ed. reflexivity.
Qed.

Lemma first_row_starts_from_fund_witness :
  valid_config clamp_scenario = true /\
  getattr clamp_scenario "pension_fund_value" = Ok (VInt 1000) /\
  exists df,
    compute_rows clamp_scenario = Ok df /\
    exists row0 rest,
      df = row0 :: rest /\
      pension_fund_value row0 = VDec (mkDec (amount_coef (VInt 1000)) (-20)).
Proof.
  split; [reflexivity|]. split; [reflexivity|].
  eexists. split; [vm_compute; reflexivity|].
  apply (first_row_starts_from_fund clamp_scenario); reflexivity.
Defined.

(** ** The two views again *)

Lemma quantize_value_cell (v w : value) :
  quantize_value v 2 = Ok w -> rounded_cell w.
Proof.
  intros H. apply (to_decimal_round_VDec v 2 w) in H. unfold rounded_cell.
  destruct v as [n|[m e|s|]|d|s]; auto.
Qed.

Lemma rounded_cell_fixed (w : value) :
  rounded_cell w -> quantize_value w 2 = Ok w.
Proof.
  intros [(q & -> & He & Hb)| ->]; cbn [quantize_value]; [|reflexivity].
  rewrite quantize_fixed by assumption. reflexivity.
Qed.

Lemma rounded_cell_lt0 (w : value) :
  rounded_cell w -> exists b, py_lt0 w = Ok b.
Proof. intros [(q & -> & _)| ->]; cbn [py_lt0]; eauto. Qed.

Lemma clamp_rounded (table : DataFrame) :
  Forall (fun t => rounded_cell (ending_fund_value t)) table ->
  exists shown,
    clamp_negative table = Ok shown /\
    Forall (fun s => py_lt0 (ending_fund_value s) = Ok false) shown /\
    clamp_negative shown = Ok shown.
Proof.
  unfold clamp_negative.
  induction 1 as [|t table Ht _ (shown & Hs & Hall & Hfix)]; cbn [mapM].
  - exists []. repeat split. constructor.
  - rewrite Hs. destruct (rounded_cell_lt0 _ Ht) as [b Hb].
    unfold clamp_row at 1. rewrite Hb. cbn [bind].
    eexists. split; [reflexivity|].
    assert (Hrow : py_lt0 (ending_fund_value
                     (if b then mkRow (Age t) (pension_fund_value t)
                                      (projected_growth t) (charges t) (VInt 0)
                      else t)) = Ok false).
    { destruct b; [reflexivity|exact Hb]. }
    split; [constructor; assumption|].
    cbn [mapM]. unfold clamp_row at 1. rewrite Hrow. cbn [bind].
    rewrite Hfix. reflexivity.
Qed.

Lemma round_2dp_cells (df table : DataFrame) :
  round_2dp df = Ok table ->
  Forall (fun t => rounded_cell (pension_fund_value t) /\
                   rounded_cell (projected_growth t) /\
                   rounded_cell (charges t) /\
                   rounded_cell (ending_fund_value t)) table.
Proof.
  intros H. apply round_2dp_rounded in H.
  induction H as [|r t df table (_ & Hs & Hg & Hc & He) _ IH]; constructor; auto.
  repeat split; eapply quantize_value_cell; eassumption.
Qed.

Lemma clamp_after_round (df table : DataFrame) :
  round_2dp df = Ok table ->
  exists shown,
    clamp_negative table = Ok shown /\
    Forall (fun s => py_lt0 (ending_fund_value s) = Ok false) shown /\
    clamp_negative shown = Ok shown.
Proof.
  intros H. apply clamp_rounded. apply round_2dp_cells in H.
  eapply Forall_impl; [|exact H]. intros t Ht. apply Ht.
Qed.

(** X14. The clamp of line 170 cannot fail on a table that the two-place
    rounding produced; the series it gives the chart has no negative
    ending value, and clamping it again changes nothing. *)
Theorem chart_series_never_negative (df table : DataFrame) :
  round_2dp df = Ok table ->
  exists shown,
    clamp_negative table = Ok shown /\
    Forall (fun s => py_lt0 (ending_fund_value s) = Ok false) shown /\
    clamp_negative shown = Ok shown.
Proof. apply clamp_after_round. Qed.

Lemma chart_series_never_negative_witness :
  round_2dp clamp_scenario_rows = Ok clamp_scenario_table /\
  exists shown,
    clamp_negative clamp_scenario_table = Ok shown /\
    Forall (fun s => py_lt0 (ending_fund_value s) = Ok false) shown /\
    clamp_negative shown = Ok shown.
Proof.
  split; [vm_compute; reflexivity|].
  apply (chart_series_never_negative clamp_scenario_rows clamp_scenario_table).
  vm_compute; reflexivity.
Defined.

Lemma rounded_age_cell (v w : value) :
  (a <- quantize_value v 2 ;; py_int a) = Ok w ->
  exists n, w = VInt n /\ Z.abs (n * 10 ^ 2) < 10 ^ prec.
Proof.
  intros H. step H x Hx. apply quantize_value_cell in Hx.
  destruct Hx as [(q & -> & He & Hb)| ->]; cbn [py_int] in H; [|discriminate].
  rewrite He in H. change (0 <=? -2) with false in H. cbv iota in H.
  inversion H; subst w. eexists. split; [reflexivity|].
  change (Z.pow_pos 10 2) with 100. change (10 ^ 2) with 100.
  destruct (Z.le_ge_cases 0 (coef q)) as [Hc|Hc].
  - pose proof (Z.mul_quot_le (coef q) 100 Hc ltac:(lia)). lia.
  - pose proof (Z.mul_quot_ge (coef q) 100 Hc ltac:(lia)). lia.
Qed.

Lemma age_cell_fixed (n : Z) :
  Z.abs (n * 10 ^ 2) < 10 ^ prec ->
  quantize_value (VInt n) 2 = Ok (VDec (mkDec (n * 10 ^ 2) (-2))).
Proof.
  intros Hb. cbn [quantize_value]. unfold quantize, rescale, of_int.
  cbn [coef dexp]. change (- (2) <=? 0) with true. cbv iota. cbn [coef].
  change (0 - - (2)) with 2. change (- (2)) with (-2).
  destruct (Z.leb_spec (10 ^ prec) (Z.abs (n * 10 ^ 2))); [lia|reflexivity].
Qed.

(** X15. The table written to the csv file is a fixed point of the
    two-place rounding: rounding it again gives the same table. *)
Theorem round_2dp_idempotent (df table : DataFrame) :
  round_2dp df = Ok table -> round_2dp table = Ok table.
Proof.
  intros H. pose proof (round_2dp_cells _ _ H) as Hcells.
  apply round_2dp_rounded in H.
  assert (Hages : Forall (fun t => exists n, Age t = VInt n /\
                                   Z.abs (n * 10 ^ 2) < 10 ^ prec) table).
  { clear Hcells. induction H as [|r t df table (Ha & _) _ IH]; constructor; auto.
    eapply rounded_age_cell; exact Ha. }
  clear H. unfold round_2dp.
  assert (Hmid : exists mid, mapM round_row table = Ok mid /\
                             mapM age_astype_int mid = Ok table).
  { induction table as [|t table IH]; cbn [mapM]; [eexists; split; reflexivity|].
    inversion Hcells as [|? ? (Hs & Hg & Hc & He) Hcells']; subst.
    inversion Hages as [|? ? (n & Hn & Hb) Hages']; subst.
    destruct (IH Hcells' Hages') as (mid & Hm1 & Hm2).
    unfold round_row at 1. rewrite Hn, (age_cell_fixed n Hb).
    rewrite !rounded_cell_fixed by assumption. cbn [bind]. rewrite Hm1.
    cbn [bind]. eexists. split; [reflexivity|].
    cbn [mapM]. unfold age_astype_int at 1. cbn [Age py_int dexp coef].
    change (0 <=? -2) with false. cbv iota. change (- -2) with 2.
    rewrite Z.quot_mul by (vm_compute; discriminate).
    cbn [bind pension_fund_value projected_growth charges ending_fund_value].
    rewrite Hm2. cbn [bind]. rewrite <- Hn. destruct t; reflexivity. }
  destruct Hmid as (mid & -> & Hm2). exact Hm2.
Qed.

Lemma round_2dp_idempotent_witness :
  round_2dp clamp_scenario_rows = Ok clamp_scenario_table /\
  round_2dp clamp_scenario_table = Ok clamp_scenario_table.
Proof.
  split; [vm_compute; reflexivity|].
  apply (round_2dp_idempotent clamp_scenario_rows clamp_scenario_table).
  vm_compute; reflexivity.
Defined.

(** ** What the computation can raise *)

Lemma ctx_fix_raises (d : Decimal) (e : exn) :
  ctx_fix d = Raise e -> e = DecimalOverflow.
Proof.
  unfold ctx_fix. destruct (coef d =? 0); [discriminate|].
  destruct (Etop <? _); [intros [= <-]; reflexivity|].
  destruct (dexp d <? _); [|discriminate].
  destruct (10 ^ prec <=? _); [|discriminate].
  destruct (Etop <? _); [intros [= <-]; reflexivity|discriminate].
Qed.

Lemma quantize_raises (d : Decimal) (p : Z) (e : exn) :
  quantize d p = Raise e -> e = InvalidOperation.
Proof.
  unfold quantize. destruct (_ <=? _); [intros [= <-]; reflexivity|discriminate].
Qed.

Lemma numeric_op (op : value -> value -> result value) (a b : value) :
  op = py_mul \/ op = py_add \/ op = py_sub ->
  numeric a -> numeric b ->
  match op a b with
  | Ok w => numeric w
  | Raise e => decimal_exn e
  end.
Proof.
  intros Hop Ha Hb.
  destruct a as [x| |d|]; try destruct Ha; destruct b as [y| |d'|]; try destruct Hb;
    destruct Hop as [->|[->| ->]];
    cbn [py_mul py_add py_sub]; try exact I;
    unfold Dec.mul, Dec.sub, Dec.add;
    match goal with
    | |- match bind (ctx_fix ?d) _ with _ => _ end =>
        destruct (ctx_fix d) eqn:Hfix; cbn [bind numeric];
        [exact I|right; eapply ctx_fix_raises; exact Hfix]
    end.
Qed.

Lemma numeric_round (v : value) :
  numeric v ->
  match to_decimal_round v 20 with
  | Ok w => numeric w
  | Raise e => decimal_exn e
  end.
Proof.
  intros Hv. unfold to_decimal_round.
  destruct v as [x| |d|]; try destruct Hv; cbn [quantize_value];
    match goal with
    | |- match bind (quantize ?d ?p) _ with _ => _ end =>
        destruct (quantize d p) eqn:Hq; cbn [bind numeric];
        [exact I|left; eapply quantize_raises; exact Hq]
    end.
Qed.

Lemma growth_of_numeric (s g : value) :
  numeric s -> numeric g ->
  match growth_of s g with
  | Ok w => numeric w
  | Raise e => decimal_exn e
  end.
Proof.
  intros Hs Hg. unfold growth_of.
  pose proof (numeric_op py_mul s g (or_introl eq_refl) Hs Hg) as Hm.
  destruct (py_mul s g) as [x|]; cbn [bind]; [|exact Hm].
  apply numeric_round; exact Hm.
Qed.

Lemma ending_of_numeric (s g i c : value) :
  numeric s -> numeric g -> numeric i -> numeric c ->
  match ending_of s g i c with
  | Ok w => numeric w
  | Raise e => decimal_exn e
  end.
Proof.
  intros Hs Hg Hi Hc. unfold ending_of.
  pose proof (numeric_op py_add s g (or_intror (or_introl eq_refl)) Hs Hg) as H1.
  destruct (py_add s g) as [e1|]; cbn [bind]; [|exact H1].
  pose proof (numeric_op py_sub e1 i (or_intror (or_intror eq_refl)) H1 Hi) as H2.
  destruct (py_sub e1 i) as [e2|]; cbn [bind]; [|exact H2].
  apply (numeric_op py_sub e2 c (or_intror (or_intror eq_refl)) H2 Hc).
Qed.

Lemma is_amount_numeric (v : value) : is_amount v = true -> numeric v.
Proof. destruct v; cbn; try discriminate; auto. Qed.

Section ValidObject.

Variable self : AMR_Graph.
Variables a m : Z.
Variables fund income : value.
Variables g c : Decimal.
Hypothesis Hage : getattr self "age" = Ok (VInt a).
Hypothesis Hmax : getattr self "maximum_age" = Ok (VInt m).
Hypothesis Hfund : getattr self "pension_fund_value" = Ok fund.
Hypothesis Hinc : getattr self "annual_income" = Ok income.
Hypothesis Hg : getattr self "pct_growth_above_inflation" = Ok (VDec g).
Hypothesis Hc : getattr self "pct_charges_above_inflation" = Ok (VDec c).
Hypothesis Hnf : numeric fund.
Hypothesis Hni : numeric income.

Lemma first_row_valid :
  match first_row self with
  | Ok r => numeric (ending_fund_value r)
  | Raise e => decimal_exn e
  end.
Proof.
  unfold first_row. rewrite Hfund, Hg, Hc, Hage, Hinc. cbn [bind].
  pose proof (growth_of_numeric fund (VDec g) Hnf I) as H1.
  unfold growth_of in H1.
  destruct (py_mul fund (VDec g)) as [x|]; cbn [bind] in *; [|exact H1].
  destruct (to_decimal_round x 20) as [ig|]; cbn [bind]; [|exact H1].
  pose proof (growth_of_numeric fund (VDec c) Hnf I) as H2.
  unfold growth_of in H2.
  destruct (py_mul fund (VDec c)) as [y|]; cbn [bind] in *; [|exact H2].
  destruct (to_decimal_round y 20) as [ic|]; cbn [bind]; [|exact H2].
  pose proof (numeric_round fund Hnf) as H3.
  destruct (to_decimal_round fund 20) as [s|]; cbn [bind]; [|exact H3].
  pose proof (ending_of_numeric fund ig income ic Hnf H1 Hni H2) as H4.
  unfold ending_of in H4.
  destruct (py_add fund ig) as [e1|]; cbn [bind] in *; [|exact H4].
  destruct (py_sub e1 income) as [e2|]; cbn [bind] in *; [|exact H4].
  destruct (py_sub e2 ic) as [e3|]; cbn [bind] in *; [|exact H4].
  exact H4.
Qed.

Lemma next_row_valid (df : DataFrame) (i : Z) (prev : value) :
  iloc_last_ending df = Ok prev -> numeric prev ->
  match next_row self df i with
  | Ok r => numeric (ending_fund_value r)
  | Raise e => decimal_exn e
  end.
Proof.
  intros Hp Hn. unfold next_row. rewrite Hp, Hg, Hc, Hage, Hinc. cbn [bind].
  pose proof (growth_of_numeric prev (VDec g) Hn I) as H1.
  unfold growth_of in H1.
  destruct (py_mul prev (VDec g)) as [x|]; cbn [bind] in *; [|exact H1].
  destruct (to_decimal_round x 20) as [pg|]; cbn [bind]; [|exact H1].
  pose proof (growth_of_numeric prev (VDec c) Hn I) as H2.
  unfold growth_of in H2.
  destruct (py_mul prev (VDec c)) as [y|]; cbn [bind] in *; [|exact H2].
  destruct (to_decimal_round y 20) as [pc|]; cbn [bind py_add]; [|exact H2].
  pose proof (ending_of_numeric prev pg income pc Hn H1 Hni H2) as H4.
  unfold ending_of in H4.
  destruct (py_add prev pg) as [e1|]; cbn [bind] in *; [|exact H4].
  destruct (py_sub e1 income) as [e2|]; cbn [bind] in *; [|exact H4].
  destruct (py_sub e2 pc) as [e3|]; cbn [bind] in *; [|exact H4].
  exact H4.
Qed.

Lemma add_rows_valid (indices : list Z) :
  forall df prev e,
    iloc_last_ending df = Ok prev -> numeric prev ->
    add_rows self indices df = Raise e -> decimal_exn e.
Proof.
  induction indices as [|i rest IH]; intros df prev e Hp Hn H;
    cbn [add_rows] in H; [discriminate|].
  pose proof (next_row_valid df i prev Hp Hn) as Hr.
  destruct (next_row self df i) as [r|e']; cbn [bind] in H.
  - eapply (IH (df ++ [r])); [apply iloc_last_app|exact Hr|exact H].
  - inversion H; subst. exact Hr.
Qed.

Lemma compute_rows_valid (e : exn) :
  compute_rows self = Raise e -> decimal_exn e.
Proof.
  unfold compute_rows. rewrite Hmax, Hage. intros H.
  pose proof first_row_valid as H0.
  destruct (first_row self) as [row0|e0]; cbn [bind py_sub py_range] in H.
  - eapply (add_rows_valid _ [row0]); [reflexivity|exact H0|exact H].
  - inversion H; subst. exact H0.
Qed.

End ValidObject.

Lemma compute_rows_decimal_exn (self : AMR_Graph) (e : exn) :
  valid_config self = true ->
  compute_rows self = Raise e ->
  e = InvalidOperation \/ e = DecimalOverflow.
Proof.
  intros Hv H. apply valid_config_inv in Hv.
  destruct Hv as (a & m & f & i & g & c & Ha & Hm & Hf & Hi & Hg & Hc & _ & Hfa & Hia).
  eapply (compute_rows_valid self a m f i g c); eauto using is_amount_numeric.
Qed.

(** X16. For a valid configuration, whose rates are decimals, the loop
    can only fail in the decimal arithmetic: with InvalidOperation, when a
    value cannot be quantized within 28 digits, or with the overflow of the
    decimal context; never with a TypeError or a missing attribute. *)
Theorem valid_config_raises_decimal_only (self : AMR_Graph) (e : exn) :
  valid_config self = true ->
  compute_rows self = Raise e ->
  e = InvalidOperation \/ e = DecimalOverflow.
Proof. apply compute_rows_decimal_exn. Qed.

Lemma valid_config_raises_decimal_only_witness :
  valid_config large_fund_scenario = true /\
  compute_rows large_fund_scenario = Raise InvalidOperation /\
  (InvalidOperation = InvalidOperation \/ InvalidOperation = DecimalOverflow).
Proof.
  split; [reflexivity|]. split; [vm_compute; reflexivity|].
  apply (valid_config_raises_decimal_only large_fund_scenario);
    [reflexivity|vm_compute; reflexivity].
Defined.

(** X17. A valid configuration whose fund value is an int of 10^8 or more
    is never projected: the first row already fails in the decimal
    arithmetic, since the fund value cannot be written with twenty places
    within 28 digits. *)
Theorem large_fund_not_projected (self : AMR_Graph) (n : Z) :
  valid_config self = true ->
  getattr self "pension_fund_value" = Ok (VInt n) ->
  10 ^ 8 <= n ->
  exists e, compute_rows self = Raise e /\
            (e = InvalidOperation \/ e = DecimalOverflow).
Proof.
  intros Hv Hf Hn. destruct (compute_rows self) as [df|e] eqn:H.
  - exfalso. apply compute_rows_inv in H. destruct H as (row0 & k & H0 & _).
    apply first_row_start in H0. destruct H0 as (f & Hf' & Hs).
    rewrite Hf in Hf'. inversion Hf'; subst f.
    rewrite round_int_20 in Hs.
    destruct (Z.ltb_spec (Z.abs n) (10 ^ 8)); [lia|discriminate].
  - exists e. split; [reflexivity|].
    eapply compute_rows_decimal_exn; eassumption.
Qed.

Lemma large_fund_not_projected_witness :
  valid_config large_fund_scenario = true /\
  getattr large_fund_scenario "pension_fund_value" = Ok (VInt 100000000) /\
  10 ^ 8 <= 100000000 /\
  exists e, compute_rows large_fund_scenario = Raise e /\
            (e = InvalidOperation \/ e = DecimalOverflow).
Proof.
  split; [reflexivity|]. split; [reflexivity|]. split; [simpl; lia|].
  apply (large_fund_not_projected large_fund_scenario 100000000);
    [reflexivity|reflexivity|simpl; lia].
Defined.

(** ** Percentages without a decimal point *)

Lemma round_binary64_not_nan (n d : Z) : Flt.round_binary64 n d <> Flt.Fnan.
Proof.
  unfold Flt.round_binary64. destruct (n =? 0); [discriminate|].
  destruct (Flt.rne_scaled _ _ _ =? 2 ^ 53); destruct (971 <? _); discriminate.
Qed.

Lemma py_div100_rate (v w : value) :
  stored v -> py_div100 v = Ok w -> rate_value w.
Proof.
  intros Hs H. pose proof (py_div100_stored v Hs) as Hd. rewrite H in Hd.
  destruct w as [|[| |]| |]; cbn [rate_value]; auto.
Qed.

Lemma init_kinds (config : ConfigParser) (script_dir : string) (self : AMR_Graph) :
  AMR_Graph_init config script_dir = Ok self ->
  forall k v, getattr self k = Ok v ->
              if is_percentage k then rate_value v else stored v.
Proof.
  intros H k v Hk. unfold AMR_Graph_init in H.
  destruct (items config "Values") as [its|]; cbn [bind] in H; [|discriminate].
  destruct (set_values _ its) as [s0|] eqn:Hset; cbn [bind] in H; [|discriminate].
  assert (Hst : forall k v, lookup k s0 = Some v -> stored v).
  { eapply set_values_stored; [|exact Hset].
    intros k0 v0 Hk0. cbn [lookup] in Hk0.
    destruct (String.eqb k0 "script_dir"); [|discriminate].
    inversion Hk0; exact I. }
  destruct (getattr s0 "pct_growth_above_inflation") as [g|] eqn:Hg;
    cbn [bind] in H; [|discriminate].
  destruct (py_div100 g) as [g'|] eqn:Hg'; cbn [bind] in H; [|discriminate].
  destruct (getattr (setattr s0 "pct_growth_above_inflation" g')
                    "pct_charges_above_inflation") as [c|] eqn:Hc;
    cbn [bind] in H; [|discriminate].
  destruct (py_div100 c) as [c'|] eqn:Hc'; cbn [bind] in H; [|discriminate].
  inversion H; subst self; clear H.
  rewrite getattr_setattr_other in Hc by discriminate.
  apply getattr_lookup in Hg. apply getattr_lookup in Hc.
  apply getattr_lookup in Hk. unfold is_percentage.
  apply lookup_setattr_inv in Hk. destruct Hk as [[-> ->]|[Hnc Hk]].
  - rewrite orb_true_r. eapply py_div100_rate; [|exact Hc']. eauto.
  - apply lookup_setattr_inv in Hk. destruct Hk as [[-> ->]|[Hng Hk]].
    + cbn [orb]. eapply py_div100_rate; [|exact Hg']. eauto.
    + apply String.eqb_neq in Hnc, Hng. rewrite Hnc, Hng. cbn [orb]. eauto.
Qed.

Lemma stored_times_rate (f g x : value) :
  stored f -> rate_value g -> py_mul f g = Ok x ->
  x <> VFloat Flt.Fnan /\ (exists n, f = VInt n) \/ (exists d, f = VDec d /\ exists r, g = VDec r).
Proof.
  intros Hf Hgr H.
  destruct f as [n| |d|s]; try (exfalso; exact Hf);
    destruct g as [|[mg eg| |]|r|]; try (exfalso; exact Hgr); cbn [py_mul] in H;
    try discriminate.
  - left. split; [|eauto]. unfold Flt.of_int in H.
    destruct (Flt.round_binary64 n 1) as [mf ef| |] eqn:Hr; cbn [bind] in H;
      try discriminate.
    + inversion H; subst x. unfold Flt.mul. intros [= Hn].
      eapply round_binary64_not_nan; exact Hn.
    + exfalso. eapply round_binary64_not_nan; exact Hr.
  - left. split; [|eauto]. destruct (Dec.mul _ r); cbn [bind] in H; inversion H.
    discriminate.
  - right. eauto.
Qed.

Lemma round_not_nan (x w : value) :
  x <> VFloat Flt.Fnan -> to_decimal_round x 20 = Ok w -> exists q, w = VDec q.
Proof.
  intros Hx H. apply to_decimal_round_VDec in H.
  destruct x as [n|[m e|s|]|d|s]; try (destruct H as (q & -> & _); eauto).
  congruence.
Qed.

Lemma first_row_ending_decimal (self : AMR_Graph) (row0 : Row) :
  (forall k v, getattr self k = Ok v ->
               if is_percentage k then rate_value v else stored v) ->
  first_row self = Ok row0 -> exists e, ending_fund_value row0 = VDec e.
Proof.
  intros Hk H. unfold first_row in H.
  step H fund Hfund. step H g Hg. step H x Hx. step H ig Hig.
  step H c Hc. step H y Hy. step H ic Hic. step H age Hage.
  step H s Hs. step H e1 He1. step H income Hinc.
  step H e2 He2. step H e3 He3. inversion H; subst row0; clear H.
  cbn [ending_fund_value].
  pose proof (Hk _ _ Hfund) as Kf. pose proof (Hk _ _ Hg) as Kg.
  pose proof (Hk _ _ Hc) as Kc. pose proof (Hk _ _ Hinc) as Ki.
  cbn in Kf, Kg, Kc, Ki.
  assert (Hig' : exists q, ig = VDec q).
  { destruct (stored_times_rate _ _ _ Kf Kg Hx) as [[Hn _]|(d & -> & r & ->)].
    - eapply round_not_nan; eassumption.
    - cbn [py_mul] in Hx. step Hx p Hp. inversion Hx; subst x.
      apply (round_not_nan (VDec p)); [discriminate|exact Hig]. }
  assert (Hic' : exists q, ic = VDec q).
  { destruct (stored_times_rate _ _ _ Kf Kc Hy) as [[Hn _]|(d & -> & r & ->)].
    - eapply round_not_nan; eassumption.
    - cbn [py_mul] in Hy. step Hy p Hp. inversion Hy; subst y.
      apply (round_not_nan (VDec p)); [discriminate|exact Hic]. }
  destruct Hig' as [qg ->]. destruct Hic' as [qc ->].
  assert (H1 : exists d1, e1 = VDec d1).
  { destruct fund as [n| |d|]; try (exfalso; exact Kf); cbn [py_add] in He1;
      try discriminate; step He1 r Hr; inversion He1; eauto. }
  destruct H1 as [d1 ->].
  assert (H2 : exists d2, e2 = VDec d2).
  { destruct income as [n| |d|]; try (exfalso; exact Ki); cbn [py_sub] in He2;
      try discriminate; step He2 r Hr; inversion He2; eauto. }
  destruct H2 as [d2 ->].
  cbn [py_sub] in He3. step He3 r Hr. inversion He3. eauto.
Qed.

(** X18. A percentage that became a float, as one written without a
    decimal point does, stops every projection of more than one age: for an
    object that [__init__] built, with [age < maximum_age], the table is
    never returned. *)
Theorem float_rate_stops_second_row (config : ConfigParser) (script_dir : string)
        (self : AMR_Graph) (a m : Z) (k : string) (f : Flt.float) :
  AMR_Graph_init config script_dir = Ok self ->
  getattr self "age" = Ok (VInt a) ->
  getattr self "maximum_age" = Ok (VInt m) ->
  a < m ->
  k = "pct_growth_above_inflation"%string \/
  k = "pct_charges_above_inflation"%string ->
  getattr self k = Ok (VFloat f) ->
  exists e, compute_rows self = Raise e.
Proof.
  intros Hi Ha Hm Hlt Hk Hf.
  destruct (compute_rows self) as [df|e] eqn:H; [exfalso|eauto].
  pose proof (init_kinds _ _ _ Hi) as Hkinds.
  unfold compute_rows in H. rewrite Hm, Ha in H.
  destruct (first_row self) as [row0|] eqn:H0; cbn [bind py_sub py_range] in H;
    [|discriminate].
  destruct (Z.to_nat (m - a)) as [|n] eqn:Hn; [lia|].
  cbn [seq map add_rows] in H. step H r Hr.
  destruct (first_row_ending_decimal _ _ Hkinds H0) as [e0 He0].
  unfold next_row in Hr. cbn [iloc_last_ending rev app] in Hr.
  rewrite He0 in Hr. cbn [bind] in Hr.
  step Hr g Hg. step Hr x Hx. step Hr pg Hpg. step Hr c Hc. step Hr y Hy.
  destruct Hk as [-> | ->].
  - rewrite Hf in Hg. inversion Hg; subst g. discriminate.
  - rewrite Hf in Hc. inversion Hc; subst c. discriminate.
Qed.

Lemma float_rate_stops_second_row_witness :
  AMR_Graph_init (ini "client" "60" "62" "1000" "2000" "5" "1.0") "."
  = Ok float_rate_scenario /\
  getattr float_rate_scenario "age" = Ok (VInt 60) /\
  getattr float_rate_scenario "maximum_age" = Ok (VInt 62) /\
  60 < 62 /\
  ("pct_growth_above_inflation"%string = "pct_growth_above_inflation"%string \/
   "pct_growth_above_inflation"%string = "pct_charges_above_inflation"%string) /\
  getattr float_rate_scenario "pct_growth_above_inflation"
  = Ok (VFloat (Flt.Ffin 7205759403792794 (-57))) /\
  exists e, compute_rows float_rate_scenario = Raise e.
Proof.
  split; [vm_compute; reflexivity|]. split; [reflexivity|].
  split; [reflexivity|]. split; [lia|]. split; [left; reflexivity|].
  split; [reflexivity|].
  apply (float_rate_stops_second_row
           (ini "client" "60" "62" "1000" "2000" "5" "1.0") "."
           float_rate_scenario 60 62 "pct_growth_above_inflation"
           (Flt.Ffin 7205759403792794 (-57)));
    [vm_compute; reflexivity|reflexivity|reflexivity|lia|left; reflexivity
    |reflexivity].
Defined.

(** ** The files of a run *)


(** ** A longer horizon *)







(** ** Exact growth *)

(** X21. When the exact product of the starting value and the rate has at
    most 28 significant digits, the 28-digit rounding of the multiplication
    does not show: the growth of line 141 is the exact product rounded half
    up to twenty places. *)
Theorem growth_exact_within_28_digits (s g : Decimal) (c j : Z) :
  0 <= j -> coef s * coef g = c * 10 ^ j -> Z.abs c < 10 ^ prec ->
  Etiny <= dexp s + dexp g + j <= Etop ->
  growth_of (VDec s) (VDec g)
  = to_decimal_round (VDec (mkDec (coef s * coef g) (dexp s + dexp g))) 20.
Proof.
  intros Hj Hc Hb Hr. unfold growth_of. cbn [py_mul].
  rewrite round_VDec_bind.
  rewrite (mul_quantize_exact s g c j 20 Hj Hc Hb Hr). reflexivity.
Qed.

Lemma growth_exact_within_28_digits_witness :
  0 <= 41 /\
  coef (mkDec 100000000000000000000000 (-20)) * coef five_percent = 5 * 10 ^ 41 /\
  Z.abs 5 < 10 ^ prec /\
  Etiny <= dexp (mkDec 100000000000000000000000 (-20)) + dexp five_percent + 41
        <= Etop /\
  growth_of (VDec (mkDec 100000000000000000000000 (-20))) (VDec five_percent)
  = to_decimal_round
      (VDec (mkDec (coef (mkDec 100000000000000000000000 (-20)) * coef five_percent)
                   (dexp (mkDec 100000000000000000000000 (-20)) + dexp five_percent)))
      20.
Proof.
  split; [lia|]. split; [reflexivity|]. split; [reflexivity|].
  split; [split; vm_compute; discriminate|].
  apply (growth_exact_within_28_digits _ _ 5 41);
    [lia|reflexivity|reflexivity|split; vm_compute; discriminate].
Defined.
